(** * Connection-log harvester and multi-account checker

    A shallow embedding of [connectionLogsGrabber.py] (the resumable,
    batch-partitioned harvester) and of [multiAccountChecker.py] (the
    identifier-correlation analysis), with the properties their
    specification states.

    Conventions.
    - Python [str] values are [string]s holding their UTF-8 bytes; the
      byte-wise lexicographic order on such strings coincides with
      Python's code-point order.  A lone surrogate, which [json.loads]
      accepts and UTF-8 has no bytes for, is written in the three-byte
      form of its code point (first byte 237).
    - A Python [dict] is an association list in insertion order with
      first-match lookup ([dict_get]) and in-place update ([dict_set]).
    - A Python [None] result is [None : option _]; the exceptions the
      programs catch are values of [exn], carried by [Raise], and an
      exception that leaves the pagination loop is [LoopRaised].
    - Library calls whose behaviour the programs do not fix
      ([json.loads], [bytes.decode], [repr] of containers, the point at
      which the codec of the output file refuses a text) are the members
      of the class [PyLib]; every theorem holds for all of them. *)

From Stdlib Require Import ZArith Lia.
From stdpp Require Import base decidable option list strings gmap pretty sorting.

Local Open Scope string_scope.
Local Open Scope nat_scope.
Local Open Scope list_scope.

(** ** JSON values, as [json.loads] produces them *)

#[warnings="-register-all"]
Inductive json : Type :=
  | JNull
  | JBool (b : bool)
  | JInt (n : Z)
  | JFloat (repr : string)   (* a float, identified by its Python repr *)
  | JStr (s : string)
  | JList (l : list json)
  | JDict (d : list (string * json)).

Definition is_dict (v : json) : bool :=
  match v with JDict _ => true | _ => false end.

Definition is_list (v : json) : bool :=
  match v with JList _ => true | _ => false end.

(** ** Insertion-ordered dictionaries *)

Section odict.
Context {K V : Type} `{EqDecision K}.

(** [d.get(k)] *)
Fixpoint dict_get (k : K) (d : list (K * V)) : option V :=
  match d with
  | [] => None
  | (k', v) :: d' => if decide (k' = k) then Some v else dict_get k d'
  end.

(** [k in d] *)
Definition dict_contains (k : K) (d : list (K * V)) : bool :=
  match dict_get k d with Some _ => true | None => false end.

(** [d[k] = v]: an existing key keeps its position, a new key goes last. *)
Fixpoint dict_set (k : K) (v : V) (d : list (K * V)) : list (K * V) :=
  match d with
  | [] => [(k, v)]
  | (k', v') :: d' =>
      if decide (k' = k) then (k', v) :: d' else (k', v') :: dict_set k v d'
  end.

Definition dict_keys (d : list (K * V)) : list K := d.*1.
End odict.

(** [k in v] and [v[k]] on a JSON value known to be an object. *)
Definition json_has_key (k : string) (v : json) : bool :=
  match v with JDict d => dict_contains k d | _ => false end.

Definition json_item (k : string) (v : json) : option json :=
  match v with JDict d => dict_get k d | _ => None end.

(** ** Library functions left open by the programs *)

Class PyLib := {
  (** [json.loads]; [None] stands for [json.JSONDecodeError]. *)
  json_loads : string -> option json;
  (** [bytes.decode('utf-8', errors='ignore')] *)
  utf8_decode_ignore : string -> string;
  (** [repr] of a list or a dict, which is what [str] returns for them. *)
  py_repr : json -> string;
  (** Writing a text to the output file, which is opened with the UTF-8
      codec: [None] when all of it is written, [Some n] when the write
      raises ([UnicodeEncodeError] on a lone surrogate, which
      [json.loads] accepts in its escaped form) after [n] characters
      have reached the file. *)
  write_stops_at : string -> option nat
}.

(** [str(v)] *)
Definition py_str `{PyLib} (v : json) : string :=
  match v with
  | JStr s => s
  | JInt n => pretty n
  | JFloat r => r
  | JBool true => "True"
  | JBool false => "False"
  | JNull => "None"
  | JList _ | JDict _ => py_repr v
  end.

(** [for item in v]: the items, or [None] for the [TypeError] raised on a
    value that is not iterable.  A dict iterates over its keys, a string
    over its characters. *)
Definition py_iter (v : json) : option (list json) :=
  match v with
  | JList l => Some l
  | JDict d => Some (JStr <$> dict_keys d)
  | JStr s => Some ((λ c, JStr (String c EmptyString)) <$> String.list_ascii_of_string s)
  | JNull | JBool _ | JInt _ | JFloat _ => None
  end.

(** [len(v)] is defined for lists, objects and strings; on any other
    value it raises a [TypeError]. *)
Definition has_len (v : json) : bool :=
  match v with
  | JList _ | JDict _ | JStr _ => true
  | JNull | JBool _ | JInt _ | JFloat _ => false
  end.

(** [needle in hay] on strings *)
Fixpoint str_contains (needle hay : string) : bool :=
  String.prefix needle hay ||
  match hay with
  | EmptyString => false
  | String _ hay' => str_contains needle hay'
  end.

(** * connectionLogsGrabber.py *)

Definition DATA_REQUEST_PATH : string := "/admin/connectionLogs".
Definition JSON_DATA_KEY : string := "data".
Definition DEFAULT_MAX_LOGS_PER_USER : Z := 200.
Definition DEFAULT_MAX_WORKERS : Z := 4.

(** ** The captured network traffic of a session ([driver.requests]) *)

Record response := {
  status_code : Z;
  content_type : option string;   (* headers.get('Content-Type') *)
  body : string                   (* the raw bytes *)
}.

Record request := {
  method : string;
  url : string;
  req_response : option response
}.

(** ** Fetching the logs of one user id *)

(** What one turn of the pagination loop observes on its session. *)
Inductive capture_obs :=
  | CaptureRaises                          (* the session is gone *)
  | Captured (requests : list request).    (* driver.requests *)

Inductive next_page_obs :=
  | NextDisabled     (* the disabled "next" marker is found: break *)
  | NextFindRaises   (* find_element raises something other than
                        NoSuchElementException *)
  | NextClickFails   (* no disabled marker; waiting for or clicking the
                        button raises: break *)
  | NextClicked.     (* no disabled marker; the click went through *)

Record page_obs := {
  obs_capture : capture_obs;
  obs_next : next_page_obs
}.

(** The steps before the loop (navigation, page length, search box):
    a failure to set the page length is only a warning, any other
    failure raises. *)
Inductive setup_obs := SetupOk | SetupRaises.

Record fetch_env := {
  env_setup : setup_obs;
  env_pages : nat -> page_obs     (* indexed by [page_count] *)
}.

Inductive loop_result :=
  | LoopDone (user_logs : list json)       (* the loop was left *)
  | LoopRaised (user_logs : list json).    (* an exception escaped it *)

(** What opening and reading the output file gives. *)
Inductive file_state :=
  | Absent                        (* FileNotFoundError *)
  | Unreadable                    (* any other failure of open or read *)
  | Content (text : string).

Inductive exn := FileNotFoundError | JSONDecodeError | OtherError.

Inductive result (A : Type) :=
  | Ok (a : A)
  | Raise (e : exn).
Arguments Ok {A} a.
Arguments Raise {A} e.

Section grabber.
Context `{PyLib}.

(** The [try] block of [capture_latest_data_request]: parse the body and
    pick the records out of it. *)
Definition decode_body (response_body : string) : option (list json) :=
  match json_loads response_body with
  | Some raw_data =>
      if is_dict raw_data && json_has_key JSON_DATA_KEY raw_data
         && match json_item JSON_DATA_KEY raw_data with
            | Some v => is_list v
            | None => false
            end
      then match json_item JSON_DATA_KEY raw_data with
           | Some (JList l) => Some l
           | _ => None
           end
      else match raw_data with
           | JList l => Some l
           | _ => None
           end
  | None => None                       (* except json.JSONDecodeError *)
  end.

Definition is_data_request (r : request) : bool :=
  bool_decide (method r = "POST") && str_contains DATA_REQUEST_PATH (url r).

(** [for request in reversed(driver.requests): ... break] *)
Definition latest_data_request (requests : list request) : option request :=
  List.find is_data_request (rev requests).

Definition capture_latest_data_request (requests : list request)
    : option (list json) :=
  match latest_data_request requests with
  | None => None
  | Some target_request =>
      match req_response target_request with
      | None => None
      | Some resp =>
          if bool_decide (status_code resp = 200%Z)
             && String.prefix "application/json"
                  (default EmptyString (content_type resp))
          then decode_body (utf8_decode_ignore (body resp))
          else None
      end
  end.

(** [while len(user_logs) < max_logs: ...]; [None] when [fuel] turns
    did not finish the loop. *)
Fixpoint fetch_loop (fuel : nat) (pages : nat -> page_obs) (max_logs : Z)
    (page_count : nat) (user_logs : list json) : option loop_result :=
  match fuel with
  | O => None
  | S fuel' =>
      if bool_decide (Z.of_nat (length user_logs) < max_logs)%Z then
        match obs_capture (pages page_count) with
        | CaptureRaises => Some (LoopRaised user_logs)
        | Captured requests =>
            match capture_latest_data_request requests with
            | None | Some [] => Some (LoopDone user_logs)
            | Some page_data =>
                let user_logs := user_logs ++ page_data in
                if bool_decide (Z.of_nat (length user_logs) >= max_logs)%Z
                then Some (LoopDone user_logs)
                else
                  match obs_next (pages page_count) with
                  | NextDisabled => Some (LoopDone user_logs)
                  | NextFindRaises => Some (LoopRaised user_logs)
                  | NextClickFails => Some (LoopDone user_logs)
                  | NextClicked =>
                      fetch_loop fuel' pages max_logs (S page_count) user_logs
                  end
            end
        end
      else Some (LoopDone user_logs)
  end.

(** [l[:m]] *)
Definition py_slice_to {A} (m : Z) (l : list A) : list A :=
  if bool_decide (m < 0)%Z
  then take (Z.to_nat (Z.of_nat (length l) + m)) l
  else take (Z.to_nat m) l.

(** Every turn that continues adds at least one record, so
    [max_logs + 1] turns are enough (see [fetch_loop_enough_fuel]). *)
Definition fetch_fuel (max_logs : Z) : nat := S (Z.to_nat max_logs).

Definition search_and_fetch_logs_for_id (env : fetch_env)
    (user_id_to_search : string) (max_logs : Z)
    : option (string * list json) :=
  match env_setup env with
  | SetupRaises => Some (user_id_to_search, [])
  | SetupOk =>
      match fetch_loop (fetch_fuel max_logs) (env_pages env) max_logs 1 [] with
      | Some (LoopDone user_logs) =>
          Some (user_id_to_search, py_slice_to max_logs user_logs)
      | Some (LoopRaised user_logs) =>
          Some (user_id_to_search, user_logs)    (* return partial if any *)
      | None => None
      end
  end.

(** ** The worker of one session *)

Definition harvest_entry (user_id : string) (logs : list json) : json :=
  JDict [("user_id", JStr user_id); ("logs", JList logs)].

(** [envs i] is what the session shows while the [i]-th id of the batch
    is processed. *)
Fixpoint process_id_batch_worker (envs : nat -> fetch_env)
    (id_batch : list string) (max_logs_per_user_val : Z) : list json :=
  match id_batch with
  | [] => []
  | user_id :: rest =>
      let results_for_rest :=
        process_id_batch_worker (λ i, envs (S i)) rest max_logs_per_user_val in
      match search_and_fetch_logs_for_id (envs 0) user_id max_logs_per_user_val with
      | Some (_, logs) => harvest_entry user_id logs :: results_for_rest
      | None => results_for_rest
      end
  end.

(** ** The output file *)

(** [with open(filename, 'r') as f: json.load(f)] *)
Definition json_load (f : file_state) : result json :=
  match f with
  | Absent => Raise FileNotFoundError
  | Unreadable => Raise OtherError
  | Content text =>
      match json_loads text with
      | Some data => Ok data
      | None => Raise JSONDecodeError
      end
  end.

(** [str(entry['user_id'])] when [entry] is a dict with that key. *)
Definition entry_user_id (entry : json) : option string :=
  if is_dict entry && json_has_key "user_id" entry
  then py_str <$> json_item "user_id" entry
  else None.

(** [for entry in data: ... processed_ids.add(...)] *)
Definition add_processed (processed_ids : gset string) (entry : json)
    : gset string :=
  match entry_user_id entry with
  | Some uid => {[uid]} ∪ processed_ids
  | None => processed_ids
  end.

(** The [try] block of [load_processed_user_ids]. *)
Definition load_processed_user_ids_try (f : file_state)
    : result (gset string) :=
  match json_load f with
  | Raise e => Raise e
  | Ok data =>
      match py_iter data with
      | None => Raise OtherError                      (* TypeError *)
      | Some entries => Ok (foldl add_processed ∅ entries)
      end
  end.

Definition load_processed_user_ids (f : file_state) : gset string :=
  match load_processed_user_ids_try f with
  | Ok processed_ids => processed_ids
  | Raise FileNotFoundError => ∅
  | Raise JSONDecodeError => ∅
  | Raise OtherError => ∅
  end.
End grabber.

(** The work-item ids of a list of entries, as the loader reads them. *)
Definition entry_ids `{PyLib} (entries : list json) : list string :=
  omap entry_user_id entries.

(** ** [json.dump(all_results, f, indent=2, ensure_ascii=False)] *)

Definition newline : string := String (Ascii.ascii_of_nat 10) EmptyString.
Definition dquote : string := String (Ascii.ascii_of_nat 34) EmptyString.
Definition backslash : string := String (Ascii.ascii_of_nat 92) EmptyString.

Definition hex_digit (n : nat) : Ascii.ascii :=
  Ascii.ascii_of_nat (if decide (n < 10) then 48 + n else 87 + n).

(** The escapes of [json.encoder.py_encode_basestring]. *)
Definition escape_char (c : Ascii.ascii) : string :=
  let n := Ascii.nat_of_ascii c in
  if decide (n = 34) then backslash +:+ dquote
  else if decide (n = 92) then backslash +:+ backslash
  else if decide (n = 10) then backslash +:+ "n"
  else if decide (n = 13) then backslash +:+ "r"
  else if decide (n = 9) then backslash +:+ "t"
  else if decide (n = 8) then backslash +:+ "b"
  else if decide (n = 12) then backslash +:+ "f"
  else if decide (n < 32)
       then backslash +:+ "u00"
            +:+ String (hex_digit (n / 16))
                  (String (hex_digit (n mod 16)) EmptyString)
       else String c EmptyString.

Fixpoint escape_string (s : string) : string :=
  match s with
  | EmptyString => EmptyString
  | String c s' => escape_char c +:+ escape_string s'
  end.

Definition encode_basestring (s : string) : string :=
  dquote +:+ escape_string s +:+ dquote.

(** [float.__repr__], except for the three values JSON has no syntax for. *)
Definition floatstr (repr : string) : string :=
  if decide (repr = "nan") then "NaN"
  else if decide (repr = "inf") then "Infinity"
  else if decide (repr = "-inf") then "-Infinity"
  else repr.

Fixpoint spaces (n : nat) : string :=
  match n with
  | O => EmptyString
  | S n' => " " +:+ spaces n'
  end.

(** A line break followed by the indentation of nesting level [level]. *)
Definition newline_indent (level : nat) : string :=
  newline +:+ spaces (2 * level).

Fixpoint join (sep : string) (parts : list string) : string :=
  match parts with
  | [] => EmptyString
  | [x] => x
  | x :: rest => x +:+ sep +:+ join sep rest
  end.

Fixpoint encode (level : nat) (v : json) : string :=
  match v with
  | JNull => "null"
  | JBool true => "true"
  | JBool false => "false"
  | JInt n => pretty n
  | JFloat r => floatstr r
  | JStr s => encode_basestring s
  | JList [] => "[]"
  | JList l =>
      "[" +:+ newline_indent (S level)
      +:+ join ("," +:+ newline_indent (S level)) (map (encode (S level)) l)
      +:+ newline_indent level +:+ "]"
  | JDict [] => "{}"
  | JDict d =>
      "{" +:+ newline_indent (S level)
      +:+ join ("," +:+ newline_indent (S level))
            (map (λ kv, let '(k, x) := kv in
                        encode_basestring k +:+ ": " +:+ encode (S level) x) d)
      +:+ newline_indent level +:+ "}"
  end.

Definition json_dumps (v : json) : string := encode 0 v.

(** ** [save_results_to_json]

    The save is the sequence of operations it performs on the file, so
    that an interruption is a prefix of that sequence.  [open(filename,
    'w')] empties the file before anything is written; the text then
    reaches the file front to back (the model writes it character by
    character, which covers every way of buffering it).  When the write
    raises, what was written before stays in the file and the outer
    [except Exception] only prints.  The file is one that can be opened
    for writing whenever it can be opened for reading. *)

Inductive fs_op :=
  | OpOpenTruncate
  | OpWrite (c : Ascii.ascii).

Definition apply_op (disk : file_state) (op : fs_op) : file_state :=
  match op with
  | OpOpenTruncate => Content EmptyString
  | OpWrite c =>
      match disk with
      | Content text => Content (text +:+ String c EmptyString)
      | _ => disk
      end
  end.

Definition run_ops (disk : file_state) (ops : list fs_op) : file_state :=
  foldl apply_op disk ops.

Definition write_ops (text : string) : list fs_op :=
  OpOpenTruncate :: (OpWrite <$> String.list_ascii_of_string text).

(** The first [n] characters of a text. *)
Definition str_take (n : nat) (text : string) : string :=
  String.string_of_list_ascii (take n (String.list_ascii_of_string text)).

(** What of [text] reaches the file when [json.dump] writes it: all of
    it, or its front part up to the point at which the write raises. *)
Definition written_part `{PyLib} (text : string) : string :=
  match write_stops_at text with
  | None => text
  | Some n => str_take n text
  end.

Record harvest_env := {
  env_login_ok : nat -> bool;           (* does the i-th login succeed *)
  env_worker : nat -> nat -> fetch_env; (* batch, position in the batch *)
  env_completion_order : list nat       (* batches in order of completion *)
}.

Record arguments := {
  arg_username : option string;
  arg_password : option string;
  arg_max_logs_per_user : Z;
  arg_max_workers : Z
}.

(** What the program decides before it opens any browser session. *)
Inductive startup :=
  | StartExit (code : Z)                       (* sys.exit(code) *)
  | StartSessions (queue : list string).       (* go on with these ids *)

Inductive outcome :=
  | Exited (code : Z) (disk : file_state)
  | Uncaught (disk : file_state).         (* an exception nobody catches *)

Section persistence.
Context `{PyLib}.

(** The inner [try] of [save_results_to_json]: the existing file is read
    and its ids collected (the result is not used afterwards).  Only
    [FileNotFoundError] and [JSONDecodeError] are handled here. *)
Definition save_read_existing (disk : file_state) : result (gset string) :=
  match load_processed_user_ids_try disk with
  | Ok existing_ids => Ok existing_ids
  | Raise FileNotFoundError => Ok ∅
  | Raise JSONDecodeError => Ok ∅
  | Raise OtherError => Raise OtherError
  end.

(** The file operations of one call.  An exception of the read escapes
    to the outer [except Exception], which only prints: nothing is
    written then.  So does an exception of the write, after the front
    part of the text that was written before it. *)
Definition save_ops (all_results : json) (disk : file_state) : list fs_op :=
  match save_read_existing disk with
  | Ok _ => write_ops (written_part (json_dumps all_results))
  | Raise _ => []
  end.

Definition save_results_to_json (all_results : json) (disk : file_state)
    : file_state :=
  run_ops disk (save_ops all_results disk).

(** The file when the process stops after [n] operations of the save. *)
Definition interrupted_save (n : nat) (all_results : json)
    (disk : file_state) : file_state :=
  run_ops disk (take n (save_ops all_results disk)).

(** ** The main program *)

Definition is_empty_str (s : string) : bool := bool_decide (s = EmptyString).

(** [not current_username or not current_password or "YOUR_USERNAME" in
    current_username or "YOUR_PASSWORD" in current_password]; a missing
    value is [None], and [or] stops at the first true operand. *)
Definition credentials_rejected (current_username current_password : option string)
    : bool :=
  match current_username, current_password with
  | Some u, Some p =>
      is_empty_str u || is_empty_str p
      || str_contains "YOUR_USERNAME" u || str_contains "YOUR_PASSWORD" p
  | _, _ => true
  end.

Definition ids_to_process_queue (all_user_ids_from_file : list string)
    (processed_user_ids_set : gset string) : list string :=
  filter (λ uid, uid ∉ processed_user_ids_set) all_user_ids_from_file.

(** [math.ceil(a / b)] for [b > 0] (exact while [a] is below 2^53, which
    a list length always is). *)
Definition ceil_div (a b : nat) : nat :=
  a / b + (if decide (a mod b = 0) then 0 else 1).

(** [l[start:stop]] for [0 <= start <= stop] *)
Definition py_slice {A} (l : list A) (start stop : nat) : list A :=
  take (stop - start) (drop start l).

Definition ids_per_driver (num_active_drivers : nat) (queue : list string) : nat :=
  ceil_div (length queue) num_active_drivers.

Definition id_batches (num_active_drivers : nat) (queue : list string)
    : list (list string) :=
  let per := ids_per_driver num_active_drivers queue in
  filter (λ batch, batch ≠ [])
    ((λ i, py_slice queue (i * per) (i * per + per)) <$> seq 0 num_active_drivers).

(** The load of [final_results_list]; other exceptions are not caught:
    that of a file that cannot be read, and the [TypeError] of
    [len(final_results_list)], which is taken inside the [try], on a value
    without a length. *)
Definition initial_results (disk : file_state) : result json :=
  match json_load disk with
  | Ok data => if has_len data then Ok data else Raise OtherError
  | Raise FileNotFoundError => Ok (JList [])
  | Raise JSONDecodeError => Ok (JList [])
  | Raise OtherError => Raise OtherError
  end.

(** [final_results_list.extend(batch_results)]: [None] for the
    [AttributeError] of a value that is not a list. *)
Definition extend_results (final_results_list : json) (batch_results : list json)
    : option json :=
  match final_results_list with
  | JList l => Some (JList (l ++ batch_results))
  | _ => None
  end.

(** The body of the [as_completed] loop for one finished batch. *)
Definition handle_completed (st : json * file_state) (batch_results : list json)
    : json * file_state :=
  let '(final_results_list, disk) := st in
  match batch_results with
  | [] => (final_results_list, save_results_to_json final_results_list disk)
  | _ =>
      match extend_results final_results_list batch_results with
      | Some final_results_list' =>
          (final_results_list', save_results_to_json final_results_list' disk)
      | None => (final_results_list, disk)     (* except Exception: print *)
      end
  end.

(** The loop over the finished batches, then the final save. *)
Definition collect (final_results_list : json) (disk : file_state)
    (completed : list (list json)) : json * file_state :=
  let '(final_results_list', disk') :=
    foldl handle_completed (final_results_list, disk) completed in
  (final_results_list', save_results_to_json final_results_list' disk').

Definition num_active_drivers (env : harvest_env) (max_workers : Z) : nat :=
  length (filter (λ i, env_login_ok env i = true) (seq 0 (Z.to_nat max_workers))).

(** Batch [i] is submitted to session [i] when there is one; the results
    come back in the order of completion. *)
Definition completed_batches (env : harvest_env) (max_logs : Z)
    (n : nat) (batches : list (list string)) : list (list json) :=
  omap (λ i, if decide (i < n)
             then (λ batch, process_id_batch_worker (env_worker env i) batch
                              max_logs) <$> batches !! i
             else None)
       (env_completion_order env).

(** The checks of the main program that come before the first session. *)
Definition startup_check (args : arguments) (all_user_ids_from_file : list string)
    (disk : file_state) : startup :=
  if credentials_rejected (arg_username args) (arg_password args)
  then StartExit 1
  else
    match all_user_ids_from_file with
    | [] => StartExit 0
    | _ =>
        let processed_user_ids_set := load_processed_user_ids disk in
        match ids_to_process_queue all_user_ids_from_file processed_user_ids_set with
        | [] => StartExit 0
        | queue => StartSessions queue
        end
    end.

Definition main (args : arguments) (all_user_ids_from_file : list string)
    (env : harvest_env) (disk : file_state) : outcome :=
  match startup_check args all_user_ids_from_file disk with
  | StartExit code => Exited code disk
  | StartSessions queue =>
      let n := num_active_drivers env (arg_max_workers args) in
      if decide (n = 0) then Exited 1 disk
      else
        let batches := id_batches n queue in
        match initial_results disk with
        | Raise _ => Uncaught disk
        | Ok final_results_list =>
            Exited 0
              (collect final_results_list disk
                 (completed_batches env (arg_max_logs_per_user args) n
                    batches)).2
        end
  end.
End persistence.

(** * multiAccountChecker.py *)

(** A log record, seen through the five [record.get(...)] calls of
    [analyze_data]: a missing key and a JSON [null] both give [None].
    [U] is the type of user ids, [I] the type of identifier values. *)
Record log_record (U I : Type) := {
  userId : option U;
  hwid : option I;
  socialClubId : option I;
  ip : option I;
  timestamp : option string
}.
Arguments userId {U I} _.
Arguments hwid {U I} _.
Arguments socialClubId {U I} _.
Arguments ip {U I} _.
Arguments timestamp {U I} _.

(** [{'count': N, 'last_seen': 'timestamp_str'}] *)
Record details := {
  count : nat;
  last_seen : string
}.

(** The three kinds of identifier of the report. *)
Inductive id_kind := KindHwid | KindSocialClub | KindIp.

(** One call of [write_output], with the values its message carries. *)
Inductive report_line (U I : Type) :=
  | LineResultsHeader
  | LineSharedHeader (k : id_kind)
  | LineNoneShared (k : id_kind)
  | LineValue (k : id_kind) (v : I)
  | LineNoUserData (k : id_kind)
  | LinePrimary (user_id : U) (d : details)
  | LineSecondary (user_id : U) (d : details)
  | LineEnd.
Arguments LineResultsHeader {U I}.
Arguments LineSharedHeader {U I} k.
Arguments LineNoneShared {U I} k.
Arguments LineValue {U I} k v.
Arguments LineNoUserData {U I} k.
Arguments LinePrimary {U I} user_id d.
Arguments LineSecondary {U I} user_id d.
Arguments LineEnd {U I}.

(** [a > b] on strings *)
Definition str_gt (a b : string) : bool :=
  match String.compare a b with
  | Gt => true
  | _ => false
  end.

(** [ka < kb] on the sort keys [(count, last_seen)] *)
Definition key_lt (ka kb : nat * string) : bool :=
  (ka.1 <? kb.1) || ((ka.1 =? kb.1) && str_gt kb.2 ka.2).

Section checker.
Context {U I : Type} `{EqDecision U, EqDecision I}.

(** identifier -> (user id -> details) *)
Definition id_map : Type := list (I * list (U * details)).

(** The [defaultdict] value of a user not seen yet. *)
Definition fresh_details : details := {| count := 0; last_seen := EmptyString |}.

(** [d['count'] += 1; if timestamp > d['last_seen']: d['last_seen'] =
    timestamp] *)
Definition bump (ts : string) (d : details) : details :=
  let d1 := {| count := S (count d); last_seen := last_seen d |} in
  if str_gt ts (last_seen d1)
  then {| count := count d1; last_seen := ts |}
  else d1.

(** The update of one of the three maps for a value [v] of its field;
    both levels are created when they are missing. *)
Definition record_use (v : I) (user_id : U) (ts : string) (m : id_map) : id_map :=
  let users := default [] (dict_get v m) in
  let d := default fresh_details (dict_get user_id users) in
  dict_set v (dict_set user_id (bump ts d) users) m.

Definition record_field (field : option I) (user_id : U) (ts : string)
    (m : id_map) : id_map :=
  match field with
  | Some v => record_use v user_id ts m
  | None => m
  end.

(** The body of [for record in data]. *)
Definition scan_record (st : id_map * id_map * id_map) (record : log_record U I)
    : id_map * id_map * id_map :=
  match userId record, timestamp record with
  | Some user_id, Some ts =>
      let '(hwid_map, social_club_map, ip_map) := st in
      (record_field (hwid record) user_id ts hwid_map,
       record_field (socialClubId record) user_id ts social_club_map,
       record_field (ip record) user_id ts ip_map)
  | _, _ => st                                            (* continue *)
  end.

(** What [scan_record] does to one of the three maps, whose field is
    read by [field]. *)
Definition scan_field (field : log_record U I → option I) (m : id_map)
    (record : log_record U I) : id_map :=
  match userId record, timestamp record with
  | Some user_id, Some ts => record_field (field record) user_id ts m
  | _, _ => m
  end.

(** [m[v]] without creating it: the users of an identifier value. *)
Definition users_of (m : id_map) (v : I) : list (U * details) :=
  default [] (dict_get v m).

(** [{k: users for k, users in m.items() if len(users) > 1}] *)
Definition shared (m : id_map) : id_map :=
  filter (λ kv, 1 < length kv.2) m.

Definition analyze_data (data : list (log_record U I))
    : id_map * id_map * id_map :=
  match data with
  | [] => ([], [], [])
  | _ =>
      let '(hwid_map, social_club_map, ip_map) :=
        foldl scan_record ([], [], []) data in
      (shared hwid_map, shared social_club_map, shared ip_map)
  end.

Definition sort_key (item : U * details) : nat * string :=
  (count item.2, last_seen item.2).

(** [sorted(items, key=..., reverse=True)]: descending, and items with
    equal keys keep their original order. *)
Fixpoint insert_desc (x : U * details) (l : list (U * details))
    : list (U * details) :=
  match l with
  | [] => [x]
  | y :: l' =>
      if key_lt (sort_key x) (sort_key y) then y :: insert_desc x l'
      else x :: y :: l'
  end.

Definition sorted_desc (items : list (U * details)) : list (U * details) :=
  foldr insert_desc [] items.

(** The lines for one identifier value and its users. *)
Definition print_group (k : id_kind) (v : I) (user_details_map : list (U * details))
    : list (report_line U I) :=
  LineValue k v ::
  match sorted_desc user_details_map with
  | [] => [LineNoUserData k]
  | ((primary_user_id, primary_details) :: _) as sorted_users =>
      LinePrimary primary_user_id primary_details ::
      ((λ item, LineSecondary item.1 item.2)
         <$> filter (λ item, item.1 ≠ primary_user_id) sorted_users)
  end.

(** One of the three blocks of [print_results]. *)
Definition print_kind (k : id_kind) (shared_map : id_map) : list (report_line U I) :=
  match shared_map with
  | [] => [LineNoneShared k]
  | _ => LineSharedHeader k :: (shared_map ≫= λ kv, print_group k kv.1 kv.2)
  end.

Definition print_results (shared_hwids shared_social_clubs shared_ips : id_map)
    : list (report_line U I) :=
  LineResultsHeader ::
  print_kind KindHwid shared_hwids
  ++ print_kind KindSocialClub shared_social_clubs
  ++ print_kind KindIp shared_ips
  ++ [LineEnd].

End checker.

(** * Text files of ids: [read_ids_from_file] and uniqueIds.py

    A file's [Content] is its text as Python reads it (decoded, line ends
    already translated to a line feed).  The character tests below are
    those of [str.isspace] and [str.isdigit] on ASCII characters; the
    functions built on them follow Python on ASCII text. *)

Definition py_isspace (c : Ascii.ascii) : bool :=
  let n := Ascii.nat_of_ascii c in
  bool_decide (9 ≤ n ≤ 13) || bool_decide (28 ≤ n ≤ 32).

Definition py_isdigit (c : Ascii.ascii) : bool :=
  let n := Ascii.nat_of_ascii c in
  bool_decide (48 ≤ n ≤ 57).

Definition is_ascii_text (s : string) : Prop :=
  Forall (λ c, Ascii.nat_of_ascii c < 128) (String.list_ascii_of_string s).

(** [s.split()] on characters: [cur] is the token being read. *)
Fixpoint split_go (cur : list Ascii.ascii) (cs : list Ascii.ascii)
    : list (list Ascii.ascii) :=
  match cs with
  | [] => match cur with [] => [] | _ => [cur] end
  | c :: cs' =>
      if py_isspace c
      then match cur with
           | [] => split_go [] cs'
           | _ => cur :: split_go [] cs'
           end
      else split_go (cur ++ [c]) cs'
  end.

Definition py_split (s : string) : list string :=
  String.string_of_list_ascii <$> split_go [] (String.list_ascii_of_string s).

(** [s.lstrip()] and [s.strip()] *)
Fixpoint lstrip_chars (cs : list Ascii.ascii) : list Ascii.ascii :=
  match cs with
  | [] => []
  | c :: cs' => if py_isspace c then lstrip_chars cs' else cs
  end.

Definition py_strip (s : string) : string :=
  String.string_of_list_ascii
    (rev (lstrip_chars (rev (lstrip_chars (String.list_ascii_of_string s))))).

(** [s.isdigit()]: not empty, and digits only. *)
Definition py_isdigit_str (s : string) : bool :=
  match String.list_ascii_of_string s with
  | [] => false
  | cs => forallb py_isdigit cs
  end.

(** [read_ids_from_file]: both [except] branches return the empty list. *)
Definition read_ids_from_file (f : file_state) : list string :=
  match f with
  | Absent => []
  | Unreadable => []
  | Content content =>
      py_strip <$> filter (λ item, py_isdigit_str (py_strip item) = true)
                          (py_split content)
  end.

(** An id file on which [read_ids_from_file] follows the program: one
    that is missing or cannot be read (which includes bytes that are not
    UTF-8), or ASCII text. *)
Definition ascii_file (f : file_state) : Prop :=
  match f with
  | Content content => is_ascii_text content
  | Absent | Unreadable => True
  end.

(** The program from its two input files: the credentials are checked
    before the id file is read. *)
Definition run_harvest `{PyLib} (args : arguments) (id_file : file_state)
    (env : harvest_env) (disk : file_state) : outcome :=
  main args (read_ids_from_file id_file) env disk.

(** [f.readlines()]: every line keeps its line feed; a last line without
    one is a line too. *)
Fixpoint readlines_go (cur : list Ascii.ascii) (cs : list Ascii.ascii)
    : list (list Ascii.ascii) :=
  match cs with
  | [] => match cur with [] => [] | _ => [cur] end
  | c :: cs' =>
      if decide (Ascii.nat_of_ascii c = 10)
      then (cur ++ [c]) :: readlines_go [] cs'
      else readlines_go (cur ++ [c]) cs'
  end.

Definition py_readlines (text : string) : list string :=
  String.string_of_list_ascii
    <$> readlines_go [] (String.list_ascii_of_string text).

(** [numbers.sort()] on strings: ascending in the order of [<] on
    strings. *)
Fixpoint insert_asc (x : string) (l : list string) : list string :=
  match l with
  | [] => [x]
  | y :: l' => if String.ltb y x then y :: insert_asc x l' else x :: y :: l'
  end.

Definition sort_strings (l : list string) : list string :=
  foldr insert_asc [] l.

(** uniqueIds.py: the text that [format_numbers_from_file] produces. *)
Definition formatted_string (text : string) : string :=
  join " " (sort_strings (py_strip <$> py_readlines text)).

Inductive format_outcome :=
  | FormatWritten (output : file_state)   (* the output file afterwards *)
  | FormatPrinted (line : string)
  | FormatNotFound                        (* except FileNotFoundError *)
  | FormatFailed.                         (* except Exception *)

Definition format_numbers_from_file (input : file_state)
    (output_filename : option string) : format_outcome :=
  match input with
  | Absent => FormatNotFound
  | Unreadable => FormatFailed
  | Content text =>
      match output_filename with
      | Some (String _ _) => FormatWritten (Content (formatted_string text))
      | _ => FormatPrinted (formatted_string text)
      end
  end.

(** * multiAccountChecker.py: loading the records *)

Section loader.
Context `{PyLib}.

(** The test on the first element that selects the grouped structure. *)
Definition is_user_group (item : json) : bool :=
  is_dict item && json_has_key "user_id" item && json_has_key "logs" item
  && match json_item "logs" item with
     | Some v => is_list v
     | None => false
     end.

(** The logs of an item of the grouped list; [None] for an item that is
    skipped with a warning. *)
Definition group_logs (item : json) : option (list json) :=
  if is_dict item && json_has_key "logs" item
  then match json_item "logs" item with
       | Some (JList logs) => Some logs
       | _ => None
       end
  else None.

(** [load_data_from_file]; [None] is its [None]. *)
Definition load_data_from_file (f : file_state) : option (list json) :=
  match json_load f with
  | Raise _ => None
  | Ok raw_data =>
      match raw_data with
      | JList [] => Some []
      | JList ((first_element :: _) as items) =>
          if is_user_group first_element
          then Some (concat (omap group_logs items))
          else if forallb is_dict items then Some items else None
      | _ =>
          if is_dict raw_data && json_has_key "data" raw_data
             && match json_item "data" raw_data with
                | Some v => is_list v
                | None => false
                end
          then match json_item "data" raw_data with
               | Some (JList l) => Some l
               | _ => None
               end
          else None
      end
  end.
End loader.

(** * Views of the programs used to state further properties *)

(** The records page [i] contributes to the logs of a user: the decoded
    page, or nothing when the capture raises or gives no page. *)
Definition page_records `{PyLib} (pages : nat -> page_obs) (i : nat) : list json :=
  match obs_capture (pages i) with
  | CaptureRaises => []
  | Captured requests => default [] (capture_latest_data_request requests)
  end.

(** The [logs] that [process_id_batch_worker] gets for one id. *)
Definition fetched_logs `{PyLib} (env : fetch_env) (user_id : string)
    (max_logs : Z) : list json :=
  match search_and_fetch_logs_for_id env user_id max_logs with
  | Some (_, logs) => logs
  | None => []
  end.




(** The complete records that carry value [v] in a field and belong to
    user [u]. *)
Definition matching_records {U I} `{EqDecision U, EqDecision I}
    (field : log_record U I → option I) (data : list (log_record U I))
    (v : I) (u : U) : list (log_record U I) :=
  filter (λ r, field r = Some v ∧ userId r = Some u ∧ is_Some (timestamp r))
         data.

(** The field a kind of identifier is read from, and the map of that kind
    in the result of [analyze_data]. *)
Definition kind_field {U I} (k : id_kind) : log_record U I → option I :=
  match k with
  | KindHwid => hwid
  | KindSocialClub => socialClubId
  | KindIp => ip
  end.

Definition kind_result {U I} (k : id_kind)
    (res : @id_map U I * @id_map U I * @id_map U I) : @id_map U I :=
  match k with
  | KindHwid => res.1.1
  | KindSocialClub => res.1.2
  | KindIp => res.2
  end.

(** The lines that name a "likely primary" user. *)
Definition is_primary_line {U I} (line : report_line U I) : bool :=
  match line with
  | LinePrimary _ _ => true
  | _ => false
  end.

(** The user a report line is about. *)
Definition line_user {U I} (line : report_line U I) : option (U * details) :=
  match line with
  | LinePrimary user_id d | LineSecondary user_id d => Some (user_id, d)
  | _ => None
  end.

(** What the details [o] stored for a user under an identifier value say
    about the matching records [rs] of that user and value: no details
    without a record; otherwise the count is the number of records, and
    the last-seen text is at least every timestamp and is one of them
    (or empty). *)
Definition details_describe {U I} (rs : list (log_record U I))
    (o : option details) : Prop :=
  match o with
  | None => rs = []
  | Some d =>
      rs ≠ [] ∧
      count d = length rs ∧
      (∀ r ts, r ∈ rs → timestamp r = Some ts → (ts ≤ last_seen d)%string) ∧
      (last_seen d = EmptyString ∨
       ∃ r, r ∈ rs ∧ timestamp r = Some (last_seen d))
  end.

(** * Sample data for the examples *)

Definition sample_record (uid : Z) (addr : string) : json :=
  JDict [("userId", JInt uid); ("ip", JStr addr)].

Definition sample_documents : list json :=
  [ JList [];
    JList [sample_record 7 "10.0.0.1"];
    JDict [("data", JList [sample_record 7 "10.0.0.1"; sample_record 7 "10.0.0.2"])];
    JDict [("data", JStr "none")];
    JDict [("error", JStr "denied")];
    JInt 5;
    JList [harvest_entry "7" []];
    JList [harvest_entry "7" []; harvest_entry "8" [sample_record 8 "10.0.0.3"]] ].

(** A library whose parser reads back exactly the texts that [json_dumps]
    writes for [sample_documents], and rejects every other text. *)
Definition sample_lib : PyLib := {|
  json_loads := λ text,
    List.find (λ v, bool_decide (json_dumps v = text)) sample_documents;
  utf8_decode_ignore := λ bytes, bytes;
  py_repr := json_dumps;
  write_stops_at := λ _, None
|}.

Definition sample_response (v : json) : response :=
  {| status_code := 200;
     content_type := Some "application/json; charset=utf-8";
     body := json_dumps v |}.

Definition sample_request (v : json) : request :=
  {| method := "POST";
     url := "https://v.b-zone.ro/admin/connectionLogs?draw=2";
     req_response := Some (sample_response v) |}.

(** A session on which every page shows two records and the "next" button
    always works. *)
Definition sample_pages : nat -> page_obs := λ _,
  {| obs_capture := Captured
       [sample_request
          (JDict [("data", JList [sample_record 7 "10.0.0.1";
                                  sample_record 7 "10.0.0.2"])])];
     obs_next := NextClicked |}.

Definition sample_env : fetch_env :=
  {| env_setup := SetupOk; env_pages := sample_pages |}.

(** An output file with one finished id, and the list a later save would
    write. *)
Definition sample_old_entries : list json := [harvest_entry "7" []].

Definition sample_disk : file_state :=
  Content (json_dumps (JList sample_old_entries)).

Definition sample_new_results : json :=
  JList [harvest_entry "7" []; harvest_entry "8" [sample_record 8 "10.0.0.3"]].

Definition sample_args (username password : string) : arguments :=
  {| arg_username := Some username;
     arg_password := Some password;
     arg_max_logs_per_user := 1;
     arg_max_workers := 1 |}.

(** One session that logs in and behaves like [sample_env] for every id. *)
Definition sample_harvest_env : harvest_env :=
  {| env_login_ok := λ _, true;
     env_worker := λ _ _, sample_env;
     env_completion_order := [0] |}.

(** ** Sample data for the further properties *)



(** A request that is not a POST to the data path. *)
Definition sample_other_request : request :=
  {| method := "GET";
     url := "https://v.b-zone.ro/admin/connectionLogs";
     req_response := Some (sample_response (JList [])) |}.

(** A session on which the steps before the loop fail. *)
Definition sample_failing_env : fetch_env :=
  {| env_setup := SetupRaises; env_pages := sample_pages |}.

(** Three connection records: users 1 and 2 share the hardware id A. *)
Definition sample_log_records : list (log_record Z string) :=
  [ {| userId := Some 1%Z; hwid := Some "A"; socialClubId := None;
       ip := None; timestamp := Some "t1" |};
    {| userId := Some 2%Z; hwid := Some "A"; socialClubId := None;
       ip := None; timestamp := Some "t2" |};
    {| userId := Some 3%Z; hwid := Some "B"; socialClubId := None;
       ip := None; timestamp := Some "t3" |} ].

(** An id file with tokens that are not ids, and a file of numbers, one
    on a line. *)
Definition sample_id_text : string :=
  " 12 abc 7" +:+ newline +:+ "x9 003 ".

Definition sample_numbers_text : string :=
  "10" +:+ newline +:+ " 9" +:+ newline +:+ "10" +:+ newline.

(** ** A record that cannot be written

    A response body with a lone surrogate in its escaped form, which
    JSON allows: [json.loads] reads it, and the UTF-8 codec of the output
    file refuses the string it gives.  In a [string] the surrogate is
    written in the three-byte form that starts with the byte 237. *)

Definition sample_surrogate : string :=
  String (Ascii.ascii_of_nat 237)
    (String (Ascii.ascii_of_nat 160)
       (String (Ascii.ascii_of_nat 189) EmptyString)).

Definition sample_surrogate_record : json :=
  JDict [("userId", JInt 8); ("ip", JStr sample_surrogate)].

Definition sample_surrogate_body : string :=
  "{" +:+ dquote +:+ "data" +:+ dquote +:+ ": [{"
  +:+ dquote +:+ "userId" +:+ dquote +:+ ": 8, "
  +:+ dquote +:+ "ip" +:+ dquote +:+ ": "
  +:+ dquote +:+ backslash +:+ "ud83d" +:+ dquote +:+ "}]}".

(** Where the write of a text stops for a codec that refuses the byte
    237: [json.dump] hands the text to the file piece by piece, a string
    being one piece, so the write stops at the quote that opens the
    string the byte is in (on texts whose strings hold no quote, as
    here). *)
Fixpoint surrogate_stop (i last_quote : nat) (cs : list Ascii.ascii)
    : option nat :=
  match cs with
  | [] => None
  | c :: cs' =>
      if decide (Ascii.nat_of_ascii c = 237) then Some last_quote
      else surrogate_stop (S i)
             (if decide (Ascii.nat_of_ascii c = 34) then i else last_quote)
             cs'
  end.

(** A library like [sample_lib] that also reads [sample_surrogate_body]
    and whose codec refuses the surrogate. *)
Definition sample_surrogate_lib : PyLib := {|
  json_loads := λ text,
    if bool_decide (text = sample_surrogate_body)
    then Some (JDict [("data", JList [sample_surrogate_record])])
    else List.find (λ v, bool_decide (json_dumps v = text)) sample_documents;
  utf8_decode_ignore := λ bytes, bytes;
  py_repr := json_dumps;
  write_stops_at := λ text,
    surrogate_stop 0 0 (String.list_ascii_of_string text)
|}.

Definition sample_page (body_text : string) : nat -> page_obs := λ _,
  {| obs_capture := Captured
       [{| method := "POST";
           url := "https://v.b-zone.ro/admin/connectionLogs?draw=2";
           req_response :=
             Some {| status_code := 200;
                     content_type := Some "application/json; charset=utf-8";
                     body := body_text |} |}];
     obs_next := NextDisabled |}.

Definition sample_args_two_sessions : arguments :=
  {| arg_username := Some "admin";
     arg_password := Some "secret";
     arg_max_logs_per_user := 1;
     arg_max_workers := 2 |}.

(** A first run: two sessions log in, the site has no record for the id
    of the first batch, and the worker of the second batch raises, so
    that only the first batch comes back. *)
Definition sample_first_run_env : harvest_env :=
  {| env_login_ok := λ _, true;
     env_worker := λ _ _,
       {| env_setup := SetupOk; env_pages := sample_page (json_dumps (JList [])) |};
     env_completion_order := [0] |}.

(** A second run: the site shows the record with the surrogate for the
    id that is still pending. *)
Definition sample_second_run_env : harvest_env :=
  {| env_login_ok := λ _, true;
     env_worker := λ _ _,
       {| env_setup := SetupOk; env_pages := sample_page sample_surrogate_body |};
     env_completion_order := [0] |}.

(** What the second run has in memory at its saves, and the file it
    leaves. *)
Definition sample_second_run_results : json :=
  JList [harvest_entry "7" []; harvest_entry "8" [sample_surrogate_record]].

Definition sample_truncated_disk : file_state :=
  Content (str_take 127 (json_dumps sample_second_run_results)).

(** * The specification's wording, where it is compared with the code *)

(** "the store file on disk afterwards is either the newly written content
    or the content of the last successful persist (or absent, if no
    persist ever succeeded)" *)
Definition spec_atomic_outcome (before : file_state) (all_results : json)
    (after : file_state) : Prop :=
  after = Content (json_dumps all_results) ∨ after = before.


Definition missing_or_empty (o : option string) : Prop :=
  o = None ∨ o = Some EmptyString.

Definition placeholder_values : list string := ["YOUR_USERNAME"; "YOUR_PASSWORD"].

(** A record that carries both a user id and a timestamp. *)
Definition complete_record {U I} (r : log_record U I) : Prop :=
  is_Some (userId r) ∧ is_Some (timestamp r).

#[global] Instance complete_record_dec {U I} (r : log_record U I) :
  Decision (complete_record r).
Proof. unfold complete_record. apply _. Defined.

(** User [u] occurs with the value [v] of a field on a record that has a
    timestamp. *)
Definition seen_with {U I} (field : log_record U I → option I)
    (data : list (log_record U I)) (v : I) (u : U) : Prop :=
  ∃ r, r ∈ data ∧ field r = Some v ∧ userId r = Some u ∧ is_Some (timestamp r).

(** "occurs with at least 2 distinct non-null workItemIds on records that
    also carry a non-null timestamp" *)
Definition shared_by {U I} (field : log_record U I → option I)
    (data : list (log_record U I)) (v : I) : Prop :=
  ∃ r1 r2 u1 u2,
    r1 ∈ data ∧ r2 ∈ data ∧
    field r1 = Some v ∧ field r2 = Some v ∧
    userId r1 = Some u1 ∧ userId r2 = Some u2 ∧ u1 ≠ u2 ∧
    is_Some (timestamp r1) ∧ is_Some (timestamp r2).

(** [d] ranks at least as high as [d'] under "(count descending, lastSeen
    descending)", timestamps compared as strings. *)
Definition ranks_at_least (d d' : details) : Prop :=
  count d' < count d ∨
  (count d' = count d ∧ (last_seen d' ≤ last_seen d)%string).

(** The group of the specification's ranking example. *)
Definition example_group : list (Z * details) :=
  [(1%Z, {| count := 3; last_seen := "2024-01-02" |});
   (2%Z, {| count := 3; last_seen := "2024-01-03" |})].

(** "re-running with the same input and output path reprocesses no
    previously completed work item and loses none of its entries": the
    ids that are done before a run are done after it. *)
Definition spec_rerun_keeps_done `{PyLib} (before after : file_state) : Prop :=
  ∀ uid, uid ∈ load_processed_user_ids before →
         uid ∈ load_processed_user_ids after.

(** "the username is missing/empty, the password is missing/empty, or
    either credential equals a known placeholder value" *)
Definition spec_credentials_invalid (username password : option string) : Prop :=
  missing_or_empty username ∨ missing_or_empty password ∨
  ∃ v, v ∈ placeholder_values ∧ (username = Some v ∨ password = Some v).

(** * Properties *)

Section decoding.
Context `{PyLib}.

Lemma decode_body_data (text : string) d l :
  json_loads text = Some (JDict d) →
  dict_get JSON_DATA_KEY d = Some (JList l) →
  decode_body text = Some l.
Proof.
  intros Hparse Hdata. unfold decode_body. rewrite Hparse. simpl.
  unfold dict_contains. by rewrite Hdata.
Qed.

Lemma decode_body_list (text : string) l :
  json_loads text = Some (JList l) → decode_body text = Some l.
Proof. intros Hparse. unfold decode_body. by rewrite Hparse. Qed.

Lemma decode_body_malformed (text : string) :
  json_loads text = None → decode_body text = None.
Proof. intros Hparse. unfold decode_body. by rewrite Hparse. Qed.

Lemma decode_body_other (text : string) v :
  json_loads text = Some v →
  is_list v = false →
  (∀ d l, v = JDict d → dict_get JSON_DATA_KEY d ≠ Some (JList l)) →
  decode_body text = None.
Proof.
  intros Hparse Hlist Hdict. unfold decode_body. rewrite Hparse.
  destruct v as [| | | | |l|d]; try done. simpl.
  unfold dict_contains.
  destruct (dict_get JSON_DATA_KEY d) as [x|] eqn:Hget; [|done].
  destruct x; try done. by destruct (Hdict d l).
Qed.

(** A request that is the latest data request and carries a successful
    JSON response is decoded by [decode_body]. *)
Lemma capture_decodes_body requests r resp :
  latest_data_request requests = Some r →
  req_response r = Some resp →
  status_code resp = 200%Z →
  String.prefix "application/json" (default EmptyString (content_type resp)) = true →
  capture_latest_data_request requests
  = decode_body (utf8_decode_ignore (body resp)).
Proof.
  intros Hlatest Hresp Hstatus Hct. unfold capture_latest_data_request.
  rewrite Hlatest, Hresp, Hct, bool_decide_true by done. done.
Qed.

(** A page for which the capture gives [None] ends the loop like an empty
    page: no exception, and the logs collected so far are kept. *)
Lemma fetch_loop_no_page fuel pages max_logs page_count user_logs requests :
  obs_capture (pages page_count) = Captured requests →
  capture_latest_data_request requests = None →
  fetch_loop (S fuel) pages max_logs page_count user_logs
  = Some (LoopDone user_logs).
Proof.
  intros Hobs Hcap. simpl. rewrite Hobs, Hcap. by case_bool_decide.
Qed.

(** C8: decoding a captured response body gives the list under [data]
    when the parsed body is an object with a list-valued [data] field,
    the parsed body itself when it is a list, and no page ([None], which
    the fetch loop treats as an empty page and not as an error) for every
    other shape and for every body that does not parse. *)
Theorem response_decoding (text : string) :
  (∀ d l, json_loads text = Some (JDict d) →
          dict_get JSON_DATA_KEY d = Some (JList l) →
          decode_body text = Some l) ∧
  (∀ l, json_loads text = Some (JList l) → decode_body text = Some l) ∧
  (∀ v, json_loads text = Some v →
        is_list v = false →
        (∀ d l, v = JDict d → dict_get JSON_DATA_KEY d ≠ Some (JList l)) →
        decode_body text = None) ∧
  (json_loads text = None → decode_body text = None) ∧
  (∀ requests r resp,
     latest_data_request requests = Some r →
     req_response r = Some resp →
     status_code resp = 200%Z →
     String.prefix "application/json"
       (default EmptyString (content_type resp)) = true →
     utf8_decode_ignore (body resp) = text →
     capture_latest_data_request requests = decode_body text ∧
     (decode_body text = None →
      ∀ fuel pages max_logs page_count user_logs,
        obs_capture (pages page_count) = Captured requests →
        fetch_loop (S fuel) pages max_logs page_count user_logs
        = Some (LoopDone user_logs))).
Proof.
  split_and!.
  - apply decode_body_data.
  - apply decode_body_list.
  - apply decode_body_other.
  - apply decode_body_malformed.
  - intros requests r resp Hlatest Hresp Hstatus Hct <-.
    pose proof (capture_decodes_body _ _ _ Hlatest Hresp Hstatus Hct) as Hcap.
    split; [done|]. intros Hnone fuel pages max_logs page_count user_logs Hobs.
    apply (fetch_loop_no_page _ _ _ _ _ requests); [done|]. by rewrite Hcap.
Qed.
End decoding.

(** The four shapes of C8 on the sample library. *)
Lemma response_decoding_witness :
  @decode_body sample_lib
     (json_dumps (JDict [("data", JList [sample_record 7 "10.0.0.1";
                                         sample_record 7 "10.0.0.2"])]))
    = Some [sample_record 7 "10.0.0.1"; sample_record 7 "10.0.0.2"] ∧
  @decode_body sample_lib (json_dumps (JList [sample_record 7 "10.0.0.1"]))
    = Some [sample_record 7 "10.0.0.1"] ∧
  @decode_body sample_lib (json_dumps (JDict [("error", JStr "denied")])) = None ∧
  @decode_body sample_lib "<html>" = None ∧
  @capture_latest_data_request sample_lib [sample_request (JInt 5)] = None.
Proof.
  split; [|split; [|split; [|split]]].
  - eapply (proj1 (@response_decoding sample_lib _)); reflexivity.
  - eapply (proj1 (proj2 (@response_decoding sample_lib _))); reflexivity.
  - eapply (proj1 (proj2 (proj2 (@response_decoding sample_lib _))));
      [reflexivity | reflexivity | intros d l Hd Hget].
    injection Hd as <-. vm_compute in Hget. discriminate Hget.
  - apply (proj1 (proj2 (proj2 (proj2 (@response_decoding sample_lib _))))).
    reflexivity.
  - destruct (proj2 (proj2 (proj2 (proj2
        (@response_decoding sample_lib (json_dumps (JInt 5))))))
        [sample_request (JInt 5)] (sample_request (JInt 5))
        (sample_response (JInt 5))) as [Hcap _];
      [reflexivity..|].
    rewrite Hcap. reflexivity.
Defined.

Section startup.
Context `{PyLib}.

Lemma credentials_rejected_iff (username password : option string) :
  credentials_rejected username password = true ↔
  missing_or_empty username ∨ missing_or_empty password ∨
  (∃ u, username = Some u ∧ str_contains "YOUR_USERNAME" u = true) ∨
  (∃ p, password = Some p ∧ str_contains "YOUR_PASSWORD" p = true).
Proof.
  unfold credentials_rejected, missing_or_empty, is_empty_str.
  destruct username as [u|], password as [p|]; try (split; [auto|done]).
  rewrite !orb_true_iff, !bool_decide_eq_true. split.
  - intros [[[->| ->]|Hu]|Hp]; eauto 6.
  - intros [[?| ?]|[[?| ?]|[(u' & ? & ?)|(p' & ? & ?)]]]; simplify_eq; auto.
Qed.

Lemma startup_exit_1_iff args ids disk :
  startup_check args ids disk = StartExit 1 ↔
  credentials_rejected (arg_username args) (arg_password args) = true.
Proof.
  unfold startup_check.
  destruct (credentials_rejected _ _); [done|].
  split; [|done]. destruct ids; [done|].
  by destruct (ids_to_process_queue _ _).
Qed.

(** C9, as the code has it: the run exits with status 1 before any
    session is opened exactly when the username is missing or empty, the
    password is missing or empty, the username contains the text
    YOUR_USERNAME or the password contains the text YOUR_PASSWORD.
    Otherwise it exits with status 0 when no id is left to process, and
    goes on to open sessions for a non-empty queue in every other case. *)
Theorem credentials_gate (args : arguments) (ids : list string)
    (disk : file_state) :
  (startup_check args ids disk = StartExit 1 ↔
   missing_or_empty (arg_username args) ∨
   missing_or_empty (arg_password args) ∨
   (∃ u, arg_username args = Some u ∧ str_contains "YOUR_USERNAME" u = true) ∨
   (∃ p, arg_password args = Some p ∧ str_contains "YOUR_PASSWORD" p = true)) ∧
  (credentials_rejected (arg_username args) (arg_password args) = false →
   let queue := ids_to_process_queue ids (load_processed_user_ids disk) in
   (queue = [] ∧ startup_check args ids disk = StartExit 0) ∨
   (queue ≠ [] ∧ startup_check args ids disk = StartSessions queue)) ∧
  (∀ env code disk',
     startup_check args ids disk = StartExit code →
     main args ids env disk = Exited code disk' → disk' = disk).
Proof.
  split_and!.
  - by rewrite startup_exit_1_iff, credentials_rejected_iff.
  - intros Hcred queue. unfold startup_check. rewrite Hcred.
    destruct ids as [|id0 ids]; [by left|]. fold queue.
    destruct queue; [by left|by right].
  - intros env code disk' Hstart. unfold main. rewrite Hstart. congruence.
Qed.

(** The try block of the loader can raise; the loader itself maps every
    exception to the empty set. *)
Lemma load_processed_user_ids_raise f e :
  load_processed_user_ids_try f = Raise e → load_processed_user_ids f = ∅.
Proof. unfold load_processed_user_ids. intros ->. by destruct e. Qed.

Lemma ids_to_process_queue_empty (ids : list string) :
  ids_to_process_queue ids ∅ = ids.
Proof.
  unfold ids_to_process_queue. induction ids as [|x ids IH]; [done|].
  rewrite filter_cons_True by set_solver. by rewrite IH.
Qed.

(** C10: loading the processed ids never raises; it gives the empty set
    for an absent file, for a file that does not parse and for any other
    failure of the read, and then every id of the input is pending. *)
Theorem load_processed_user_ids_total (f : file_state) :
  (∀ e, load_processed_user_ids_try f = Raise e →
        load_processed_user_ids f = ∅) ∧
  (∀ processed, load_processed_user_ids_try f = Ok processed →
        load_processed_user_ids f = processed) ∧
  load_processed_user_ids Absent = ∅ ∧
  load_processed_user_ids Unreadable = ∅ ∧
  (∀ text, json_loads text = None →
        load_processed_user_ids (Content text) = ∅) ∧
  (∀ ids, load_processed_user_ids f = ∅ →
        ids_to_process_queue ids (load_processed_user_ids f) = ids).
Proof.
  split_and!.
  - apply load_processed_user_ids_raise.
  - intros processed Hok. unfold load_processed_user_ids. by rewrite Hok.
  - done.
  - done.
  - intros text Hparse. apply (load_processed_user_ids_raise _ JSONDecodeError).
    unfold load_processed_user_ids_try. simpl. by rewrite Hparse.
  - intros ids ->. apply ids_to_process_queue_empty.
Qed.
End startup.

(** A corrupt checkpoint on the sample library: nothing counts as done. *)
Lemma load_processed_user_ids_total_witness :
  @load_processed_user_ids sample_lib (Content "[{") = ∅ ∧
  ids_to_process_queue ["7"; "8"]
    (@load_processed_user_ids sample_lib (Content "[{")) = ["7"; "8"].
Proof.
  pose proof (@load_processed_user_ids_total sample_lib (Content "[{"))
    as (_ & _ & _ & _ & Hbad & Hall).
  split.
  - apply Hbad. reflexivity.
  - apply Hall, Hbad. reflexivity.
Defined.

(** C9 as worded fails: a username that merely contains the placeholder
    text is rejected although neither credential is missing, empty or
    equal to a placeholder. *)
Lemma credentials_gate_counterexample :
  @startup_check sample_lib (sample_args "not_YOUR_USERNAME" "secret") ["7"] Absent
  = StartExit 1 ∧
  ¬ spec_credentials_invalid (Some "not_YOUR_USERNAME") (Some "secret").
Proof.
  split; [reflexivity|].
  unfold spec_credentials_invalid, missing_or_empty, placeholder_values. simpl.
  intros [[?|?]|[[?|?]|(v & Hv & Heq)]]; try discriminate.
  rewrite !elem_of_cons, elem_of_nil in Hv.
  destruct Hv as [->|[->|[]]]; destruct Heq; discriminate.
Qed.

Lemma credentials_gate_witness :
  @startup_check sample_lib (sample_args "admin" "YOUR_PASSWORD") ["7"] Absent
  = StartExit 1.
Proof.
  apply (proj1 (@credentials_gate sample_lib
                  (sample_args "admin" "YOUR_PASSWORD") ["7"] Absent)).
  right; right; right. exists "YOUR_PASSWORD". split; reflexivity.
Defined.

(** ** Partition of the pending ids into batches *)

Section partition.
Context {A : Type}.
Implicit Types (l : list A) (p k i : nat).

(** The [i]-th slice of width [p]. *)
Local Abbreviation slice p l := (λ i, take p (drop (i * p) l)).

Lemma py_slice_width l i p :
  py_slice l (i * p) (i * p + p) = take p (drop (i * p) l).
Proof. unfold py_slice. f_equal. lia. Qed.

Lemma slice_length l i p :
  length (take p (drop (i * p) l)) = min p (length l - i * p).
Proof. by rewrite length_take, length_drop. Qed.

Lemma slice_nonempty l i p :
  take p (drop (i * p) l) ≠ [] ↔ 0 < p ∧ i * p < length l.
Proof.
  rewrite <-length_zero_iff_nil, slice_length. lia.
Qed.

(** The non-empty slices are the first [j] ones, and they stop only at
    the last requested slice or once the list is used up. *)
Lemma nonempty_slices_prefix l p k :
  ∃ j, j ≤ k ∧
    filter (λ b, b ≠ []) (slice p l <$> seq 0 k) = slice p l <$> seq 0 j ∧
    (∀ i, i < j → 0 < p ∧ i * p < length l) ∧
    (j = k ∨ p = 0 ∨ length l ≤ j * p).
Proof.
  induction k as [|k (j & Hjk & Hfilter & Hfull & Hstop)].
  { exists 0. split_and!; [lia|done|lia|by left]. }
  rewrite seq_S, fmap_app, filter_app, Hfilter. simpl.
  destruct (decide (take p (drop (k * p) l) ≠ [])) as [Hne|Hempty].
  - apply slice_nonempty in Hne as Hk.
    assert (j = k) as -> by (destruct Hstop as [?|[?|?]]; [done|lia|nia]).
    exists (S k). split_and!; [lia| |intros i Hi|by left].
    + rewrite filter_cons_True, filter_nil by done.
      by rewrite seq_S, fmap_app.
    + destruct (decide (i = k)) as [->|]; [done|apply Hfull; lia].
  - rewrite filter_cons_False, filter_nil, app_nil_r by done.
    exists j. split_and!; [lia|done|done|].
    right. destruct Hstop as [->|[?|?]]; [|by left|by right].
    rewrite slice_nonempty in Hempty. lia.
Qed.

Lemma concat_slices l p j :
  concat (slice p l <$> seq 0 j) = take (j * p) l.
Proof.
  induction j as [|j IH]; [done|].
  rewrite seq_S, fmap_app, concat_app, IH. simpl.
  rewrite app_nil_r, take_take_drop. f_equal. lia.
Qed.
End partition.

Lemma ceil_div_upper (a b : nat) : 1 ≤ b → a ≤ b * ceil_div a b.
Proof.
  intros Hb. unfold ceil_div.
  pose proof (Nat.div_mod_eq a b). pose proof (Nat.mod_upper_bound a b).
  case_decide; nia.
Qed.

Lemma ceil_div_lower (a b : nat) : 1 ≤ b → 0 < a → b * (ceil_div a b - 1) < a.
Proof.
  intros Hb Ha. unfold ceil_div.
  pose proof (Nat.div_mod_eq a b). pose proof (Nat.mod_upper_bound a b).
  case_decide; nia.
Qed.

Lemma id_batches_slices (n : nat) (queue : list string) :
  let per := ids_per_driver n queue in
  ∃ j, j ≤ n ∧
    id_batches n queue = (λ i, take per (drop (i * per) queue)) <$> seq 0 j ∧
    (∀ i, i < j → 0 < per ∧ i * per < length queue) ∧
    (j = n ∨ per = 0 ∨ length queue ≤ j * per).
Proof.
  intros per.
  destruct (nonempty_slices_prefix queue per n) as (j & ? & Hfilter & ? & ?).
  exists j. split_and!; try done.
  unfold id_batches. fold per. rewrite <-Hfilter. f_equal.
  apply list_fmap_ext. intros _ i _. apply py_slice_width.
Qed.

(** C3: the pending queue is the input without the done ids, in the
    input's order; the batches are the consecutive slices of the queue of
    width [ceil(|pending| / K)], all of that width except possibly the
    last, none empty; chained together they give the queue back; and
    there are at most [K] of them. *)
Theorem partition_complete (all_ids : list string) (processed : gset string)
    (K : nat) :
  1 ≤ K →
  let pending := ids_to_process_queue all_ids processed in
  let per := ids_per_driver K pending in
  let batches := id_batches K pending in
  pending = filter (λ uid, uid ∉ processed) all_ids ∧
  pending `sublist_of` all_ids ∧
  (∀ uid, uid ∈ pending ↔ uid ∈ all_ids ∧ uid ∉ processed) ∧
  length pending ≤ K * per ∧
  (pending ≠ [] → K * (per - 1) < length pending) ∧
  concat batches = pending ∧
  length batches ≤ K ∧
  (∀ i batch, batches !! i = Some batch →
     batch = take per (drop (i * per) pending) ∧
     batch ≠ [] ∧
     length batch ≤ per ∧
     (S i < length batches → length batch = per)).
Proof.
  intros HK pending per batches.
  destruct (id_batches_slices K pending) as (j & Hj & Hbatches & Hfull & Hstop).
  fold per in Hbatches, Hfull, Hstop. fold batches in Hbatches.
  pose proof (ceil_div_upper (length pending) K HK) as Hupper.
  fold (ids_per_driver K pending) in Hupper. fold per in Hupper.
  split_and!.
  - done.
  - apply sublist_filter.
  - intros uid. unfold pending, ids_to_process_queue.
    rewrite list_elem_of_filter. tauto.
  - done.
  - intros Hne. apply ceil_div_lower; [done|].
    destruct pending; [done|simpl; lia].
  - rewrite Hbatches, concat_slices. apply take_ge.
    destruct Hstop as [->|[Hper|?]]; [lia| |done].
    rewrite Hper in Hupper. lia.
  - rewrite Hbatches, length_fmap, length_seq. done.
  - intros i batch Hi. rewrite Hbatches in Hi.
    apply list_lookup_fmap_Some in Hi as (i' & -> & Hseq).
    apply lookup_seq in Hseq as [-> Hlt]. simpl.
    destruct (Hfull i Hlt) as [Hper Hi].
    split_and!.
    + done.
    + apply slice_nonempty. done.
    + rewrite slice_length. lia.
    + rewrite Hbatches, length_fmap, length_seq. intros HS.
      destruct (Hfull (S i) HS) as [_ HSi].
      rewrite slice_length. lia.
Qed.

Lemma partition_complete_witness :
  concat (id_batches 3 (ids_to_process_queue
                          ["1"; "2"; "3"; "4"; "5"; "6"; "7"] {["2"; "6"]}))
  = ids_to_process_queue ["1"; "2"; "3"; "4"; "5"; "6"; "7"] {["2"; "6"]} ∧
  length (id_batches 3 (ids_to_process_queue
                          ["1"; "2"; "3"; "4"; "5"; "6"; "7"] {["2"; "6"]})) ≤ 3.
Proof.
  pose proof (partition_complete ["1"; "2"; "3"; "4"; "5"; "6"; "7"] {["2"; "6"]} 3)
    as Hpart.
  destruct Hpart as (_ & _ & _ & _ & _ & Hconcat & Hlen & _); [lia|].
  split; [exact Hconcat|exact Hlen].
Defined.

Example id_batches_example :
  id_batches 3 ["1"; "3"; "4"; "5"; "7"] = [["1"; "3"]; ["4"; "5"]; ["7"]] ∧
  id_batches 4 ["1"; "3"; "4"; "5"; "7"; "8"] = [["1"; "3"]; ["4"; "5"]; ["7"; "8"]].
Proof. split; reflexivity. Qed.

(** ** The per-user cap *)

Section cap.
Context `{PyLib}.

(** With more turns than records still allowed the loop ends, and an
    exception can only escape it while the cap is not reached. *)
Lemma fetch_loop_enough_fuel fuel pages max_logs page_count user_logs :
  0 < fuel →
  Z.to_nat max_logs < fuel + length user_logs →
  ∃ r, fetch_loop fuel pages max_logs page_count user_logs = Some r ∧
       match r with
       | LoopDone _ => True
       | LoopRaised logs => (Z.of_nat (length logs) < max_logs)%Z
       end.
Proof.
  revert page_count user_logs.
  induction fuel as [|fuel IH]; intros page_count user_logs Hpos Hfuel; [lia|].
  simpl. case_bool_decide as Hlt; [|by eexists (LoopDone _)].
  destruct (obs_capture (pages page_count)) as [|requests];
    [by eexists (LoopRaised _)|].
  destruct (capture_latest_data_request requests) as [[|record page]|];
    [by eexists (LoopDone _)| |by eexists (LoopDone _)].
  case_bool_decide as Hge; [by eexists (LoopDone _)|].
  destruct (obs_next (pages page_count));
    [by eexists (LoopDone _)
    |eexists (LoopRaised _); split; [done|lia]
    |by eexists (LoopDone _)|].
  apply IH; rewrite length_app in *; simpl in *; lia.
Qed.

(** More turns than needed do not change the result. *)
Lemma fetch_loop_more_fuel fuel extra pages max_logs page_count user_logs r :
  fetch_loop fuel pages max_logs page_count user_logs = Some r →
  fetch_loop (fuel + extra) pages max_logs page_count user_logs = Some r.
Proof.
  revert page_count user_logs.
  induction fuel as [|fuel IH]; intros page_count user_logs; [done|].
  simpl. case_bool_decide; [|done].
  destruct (obs_capture (pages page_count)) as [|requests]; [done|].
  destruct (capture_latest_data_request requests) as [[|record page]|];
    [done| |done].
  case_bool_decide; [done|].
  destruct (obs_next (pages page_count)); try done. apply IH.
Qed.

Lemma py_slice_to_length {A} (m : Z) (l : list A) :
  (0 ≤ m)%Z → (Z.of_nat (length (py_slice_to m l)) ≤ m)%Z.
Proof.
  intros Hm. unfold py_slice_to. rewrite bool_decide_false by lia.
  rewrite length_take. lia.
Qed.

(** With a cap that is zero or negative the loop body never runs. *)
Lemma fetch_loop_no_turn fuel pages max_logs page_count :
  (max_logs ≤ 0)%Z →
  fetch_loop (S fuel) pages max_logs page_count [] = Some (LoopDone []).
Proof. intros Hm. simpl. by rewrite bool_decide_false by lia. Qed.

Lemma search_and_fetch_returns env user_id max_logs :
  ∃ logs, search_and_fetch_logs_for_id env user_id max_logs
          = Some (user_id, logs) ∧
          (Z.of_nat (length logs) ≤ Z.max 0 max_logs)%Z.
Proof.
  unfold search_and_fetch_logs_for_id.
  destruct (env_setup env); [|exists []; split; [done|simpl; lia]].
  destruct (decide (max_logs ≤ 0)%Z) as [Hneg|Hpos].
  { unfold fetch_fuel. rewrite fetch_loop_no_turn by done.
    exists []. split; [|simpl; lia].
    unfold py_slice_to. rewrite !take_nil. by case_bool_decide. }
  destruct (fetch_loop_enough_fuel (fetch_fuel max_logs) (env_pages env)
              max_logs 1 []) as ([logs|logs] & -> & Hr).
  { unfold fetch_fuel. lia. }
  { unfold fetch_fuel. simpl. lia. }
  - eexists. split; [done|].
    pose proof (py_slice_to_length max_logs logs). lia.
  - eexists. split; [done|]. lia.
Qed.

(** The worker turns every id of its batch into one entry, in order. *)
Lemma process_id_batch_worker_entries envs id_batch max_logs :
  ∃ logss,
    process_id_batch_worker envs id_batch max_logs
    = zip_with harvest_entry id_batch logss ∧
    length logss = length id_batch ∧
    Forall (λ logs : list json,
              (Z.of_nat (length logs) ≤ Z.max 0 max_logs)%Z) logss.
Proof.
  revert envs. induction id_batch as [|user_id rest IH]; intros envs.
  { exists []. by split_and!. }
  simpl.
  destruct (search_and_fetch_returns (envs 0) user_id max_logs)
    as (logs & -> & Hlen).
  destruct (IH (λ i, envs (S i))) as (logss & -> & Hlens & Hall).
  exists (logs :: logss). split_and!; [done|simpl; lia|].
  by constructor.
Qed.

(** C4: fetching the logs of a user always returns, on the normal path
    and on the exception path alike, and the returned list never has more
    records than the cap (none at all when the cap is negative); an
    exception can only leave the loop while the list is still below the
    cap; so every entry a worker produces respects the cap. *)
Theorem cap_enforced (max_logs : Z) :
  (∀ env user_id, ∃ logs,
     search_and_fetch_logs_for_id env user_id max_logs = Some (user_id, logs) ∧
     (Z.of_nat (length logs) ≤ Z.max 0 max_logs)%Z) ∧
  (∀ pages page_count user_logs logs,
     fetch_loop (fetch_fuel max_logs) pages max_logs page_count user_logs
     = Some (LoopRaised logs) →
     (Z.of_nat (length logs) < max_logs)%Z) ∧
  (∀ envs id_batch entry,
     entry ∈ process_id_batch_worker envs id_batch max_logs →
     ∃ user_id logs, entry = harvest_entry user_id logs ∧
                     user_id ∈ id_batch ∧
                     (Z.of_nat (length logs) ≤ Z.max 0 max_logs)%Z) ∧
  ((0 ≤ max_logs)%Z →
   ∀ env user_id, ∃ logs,
     search_and_fetch_logs_for_id env user_id max_logs = Some (user_id, logs) ∧
     (Z.of_nat (length logs) ≤ max_logs)%Z).
Proof.
  split_and!.
  - intros env user_id. apply search_and_fetch_returns.
  - intros pages page_count user_logs logs Hloop.
    destruct (fetch_loop_enough_fuel (fetch_fuel max_logs) pages max_logs
                page_count user_logs) as (r & Hr & Hbound).
    { unfold fetch_fuel. lia. }
    { unfold fetch_fuel. lia. }
    rewrite Hloop in Hr. by injection Hr as <-.
  - intros envs id_batch entry Hin.
    destruct (process_id_batch_worker_entries envs id_batch max_logs)
      as (logss & Heq & Hlen & Hall).
    rewrite Heq in Hin. apply list_elem_of_lookup in Hin as [i Hi].
    apply lookup_zip_with_Some in Hi as (user_id & logs & -> & Hid & Hlogs).
    exists user_id, logs. split_and!; [done| |].
    + by eapply list_elem_of_lookup_2.
    + rewrite Forall_lookup in Hall. by eapply Hall.
  - intros Hm env user_id.
    destruct (search_and_fetch_returns env user_id max_logs) as (logs & ? & ?).
    exists logs. split; [done|lia].
Qed.
End cap.

Lemma cap_enforced_witness :
  ∃ logs, @search_and_fetch_logs_for_id sample_lib sample_env "7" 3
          = Some ("7", logs) ∧ (Z.of_nat (length logs) ≤ 3)%Z.
Proof.
  apply (proj2 (proj2 (proj2 (@cap_enforced sample_lib 3)))). lia.
Defined.

Example search_and_fetch_truncates :
  @search_and_fetch_logs_for_id sample_lib sample_env "7" 3
  = Some ("7", [sample_record 7 "10.0.0.1"; sample_record 7 "10.0.0.2";
                sample_record 7 "10.0.0.1"]).
Proof. vm_compute. reflexivity. Qed.

(** ** Saving, merging and resuming *)

Lemma str_app_empty_r (s : string) : s +:+ EmptyString = s.
Proof.
  induction s as [|c s IH]; [done|].
  change (String c (s +:+ EmptyString) = String c s). by rewrite IH.
Qed.

Lemma str_app_snoc (s t : string) (c : Ascii.ascii) :
  (s +:+ String c EmptyString) +:+ t = s +:+ String c t.
Proof.
  induction s as [|c' s IH]; [done|].
  change (String c' ((s +:+ String c EmptyString) +:+ t)
          = String c' (s +:+ String c t)).
  by rewrite IH.
Qed.

Lemma run_ops_writes (text : string) (cs : list Ascii.ascii) :
  run_ops (Content text) (OpWrite <$> cs)
  = Content (text +:+ String.string_of_list_ascii cs).
Proof.
  unfold run_ops. revert text. induction cs as [|c cs IH]; intros text; simpl.
  - by rewrite str_app_empty_r.
  - by rewrite IH, str_app_snoc.
Qed.

Lemma run_write_ops_prefix (n : nat) (text : string) (disk : file_state) :
  run_ops disk (take (S n) (write_ops text))
  = Content (String.string_of_list_ascii
               (take n (String.list_ascii_of_string text))).
Proof.
  unfold write_ops. simpl. rewrite <-fmap_take.
  change (foldl apply_op (Content EmptyString) ?ops)
    with (run_ops (Content EmptyString) ops).
  by rewrite run_ops_writes.
Qed.

Lemma run_write_ops (text : string) (disk : file_state) :
  run_ops disk (write_ops text) = Content text.
Proof.
  rewrite <-(take_ge (write_ops text) (S (length (write_ops text)))) by lia.
  rewrite run_write_ops_prefix, take_ge.
  - by rewrite String.string_of_list_ascii_of_string.
  - unfold write_ops. simpl. rewrite length_fmap. lia.
Qed.

Lemma prefix_take (n : nat) (cs : list Ascii.ascii) :
  String.prefix (String.string_of_list_ascii (take n cs))
                (String.string_of_list_ascii cs) = true.
Proof.
  revert n. induction cs as [|c cs IH]; intros [|n]; simpl; try done.
  destruct (Ascii.ascii_dec c c); [apply IH|done].
Qed.

Lemma prefix_str_take (n : nat) (text : string) :
  String.prefix (str_take n text) text = true.
Proof.
  unfold str_take.
  rewrite <-(String.string_of_list_ascii_of_string text) at 2.
  apply prefix_take.
Qed.

Lemma str_take_take (m n : nat) (text : string) :
  str_take m (str_take n text) = str_take (m `min` n) text.
Proof.
  unfold str_take.
  by rewrite String.list_ascii_of_string_of_list_ascii, take_take.
Qed.

Lemma str_take_all (n : nat) (text : string) :
  String.length text ≤ n → str_take n text = text.
Proof.
  intros Hn. unfold str_take. rewrite take_ge.
  - apply String.string_of_list_ascii_of_string.
  - revert Hn. clear. revert n.
    induction text as [|c text IH]; intros n; simpl; [lia|].
    destruct n as [|n]; [lia|]. intros Hn. specialize (IH n). lia.
Qed.

Section persistence_props.
Context `{PyLib}.

Lemma entry_user_id_harvest_entry user_id logs :
  entry_user_id (harvest_entry user_id logs) = Some user_id.
Proof. reflexivity. Qed.

Lemma entry_ids_app l k : entry_ids (l ++ k) = entry_ids l ++ entry_ids k.
Proof. apply omap_app. Qed.

Lemma entry_ids_worker envs id_batch max_logs :
  entry_ids (process_id_batch_worker envs id_batch max_logs) = id_batch.
Proof.
  revert envs. induction id_batch as [|user_id rest IH]; intros envs; [done|].
  simpl.
  destruct (search_and_fetch_returns (envs 0) user_id max_logs)
    as (logs & -> & _).
  unfold entry_ids in *. simpl. by rewrite IH.
Qed.

(** The part of a text that is written is a front part of it, and all
    of it when the write does not raise. *)
Lemma prefix_written_part text :
  String.prefix (written_part text) text = true.
Proof.
  unfold written_part. destruct (write_stops_at text) as [n|].
  - apply prefix_str_take.
  - rewrite <-(str_take_all (String.length text) text) at 1 by done.
    apply prefix_str_take.
Qed.

Lemma written_part_complete text :
  write_stops_at text = None → written_part text = text.
Proof. unfold written_part. by intros ->. Qed.

(** A save either leaves the file alone (the read of the existing file
    raised) or replaces its content by what the write of the new text
    got through. *)
Lemma save_results_to_json_cases all_results disk :
  (save_read_existing disk = Raise OtherError ∧
   save_results_to_json all_results disk = disk) ∨
  ((∃ ids, save_read_existing disk = Ok ids) ∧
   save_results_to_json all_results disk
   = Content (written_part (json_dumps all_results))).
Proof.
  unfold save_results_to_json, save_ops.
  destruct (save_read_existing disk) as [ids|e] eqn:Hread.
  - right. split; [by eexists|]. apply run_write_ops.
  - left. split; [|done]. unfold save_read_existing in Hread.
    destruct (load_processed_user_ids_try disk) as [|[]]; by simplify_eq.
Qed.

Lemma interrupted_save_cases n all_results disk :
  interrupted_save n all_results disk = disk ∨
  ∃ written,
    interrupted_save n all_results disk = Content written ∧
    String.prefix written (json_dumps all_results) = true.
Proof.
  unfold interrupted_save, save_ops.
  destruct (save_read_existing disk); [|left; by rewrite take_nil].
  destruct n as [|n]; [by left|]. right.
  rewrite run_write_ops_prefix. eexists. split; [done|].
  fold (str_take n (written_part (json_dumps all_results))).
  unfold written_part. destruct (write_stops_at _) as [k|].
  - rewrite str_take_take. apply prefix_str_take.
  - apply prefix_str_take.
Qed.

(** C1, as the code has it: the save overwrites the file in place.  At
    every interruption point the file holds either what it held before
    the save or a front part of the new text, which is empty right after
    the file is opened.  The save that is not interrupted leaves the file
    as it was when reading the existing file raised an error; otherwise
    it leaves what the write of the new text got through: the complete
    text when the write does not raise, and the text up to the point of
    failure when it does. *)
Theorem save_overwrites_in_place (all_results : json) (disk : file_state) :
  (∀ n, interrupted_save n all_results disk = disk ∨
        ∃ written,
          interrupted_save n all_results disk = Content written ∧
          String.prefix written (json_dumps all_results) = true) ∧
  interrupted_save 0 all_results disk = disk ∧
  (∀ ids, save_read_existing disk = Ok ids →
     interrupted_save 1 all_results disk = Content EmptyString) ∧
  (∀ n, length (save_ops all_results disk) ≤ n →
     interrupted_save n all_results disk
     = save_results_to_json all_results disk) ∧
  (∀ e, save_read_existing disk = Raise e →
     save_results_to_json all_results disk = disk) ∧
  (∀ ids, save_read_existing disk = Ok ids →
     (write_stops_at (json_dumps all_results) = None →
      save_results_to_json all_results disk
      = Content (json_dumps all_results)) ∧
     (∀ n, write_stops_at (json_dumps all_results) = Some n →
        save_results_to_json all_results disk
        = Content (str_take n (json_dumps all_results)))).
Proof.
  split_and!.
  - intros n. apply interrupted_save_cases.
  - done.
  - intros ids Hread. unfold interrupted_save, save_ops. by rewrite Hread.
  - intros n Hn. unfold interrupted_save, save_results_to_json.
    by rewrite take_ge.
  - intros e Hread. unfold save_results_to_json, save_ops. by rewrite Hread.
  - intros ids Hread.
    destruct (save_results_to_json_cases all_results disk)
      as [[Hraise _]|[_ Hsave]]; [congruence|].
    rewrite Hsave. unfold written_part. split.
    + by intros ->.
    + by intros n ->.
Qed.

(** ** Merging batch results *)

(** C2, as the code has it: merging appends the batch to the list of
    entries; nothing is replaced or removed.  The ids of the result are
    those of the old list followed by those of the batch, so they are
    unique exactly when both lists have unique ids and share none; the
    ids of a worker's batch result are the ids of its batch. *)
Theorem merge_appends (l batch_results : list json) (disk : file_state) :
  extend_results (JList l) batch_results = Some (JList (l ++ batch_results)) ∧
  (handle_completed (JList l, disk) batch_results).1 = JList (l ++ batch_results) ∧
  entry_ids (l ++ batch_results) = entry_ids l ++ entry_ids batch_results ∧
  (NoDup (entry_ids (l ++ batch_results)) ↔
   NoDup (entry_ids l) ∧
   (∀ uid, uid ∈ entry_ids l → uid ∉ entry_ids batch_results) ∧
   NoDup (entry_ids batch_results)) ∧
  (∀ envs id_batch max_logs,
     entry_ids (process_id_batch_worker envs id_batch max_logs) = id_batch).
Proof.
  split_and!.
  - done.
  - destruct batch_results; simpl; [by rewrite app_nil_r|done].
  - apply entry_ids_app.
  - rewrite entry_ids_app. apply NoDup_app.
  - apply entry_ids_worker.
Qed.
End persistence_props.

(** ** Resuming from the output file *)

Lemma elem_of_concat {A} (x : A) (ls : list (list A)) :
  x ∈ concat ls ↔ ∃ l, l ∈ ls ∧ x ∈ l.
Proof.
  rewrite list_elem_of_In, in_concat. setoid_rewrite list_elem_of_In. done.
Qed.

Lemma id_batches_subseteq n (queue batch : list string) uid :
  batch ∈ id_batches n queue → uid ∈ batch → uid ∈ queue.
Proof.
  unfold id_batches. rewrite list_elem_of_filter, list_elem_of_fmap.
  intros [_ (i & -> & _)]. unfold py_slice. intros Hin.
  by apply subseteq_take, subseteq_drop in Hin.
Qed.

Section resume.
Context `{PyLib}.

Lemma elem_of_foldl_add_processed acc entries uid :
  uid ∈ foldl add_processed acc entries ↔ uid ∈ acc ∨ uid ∈ entry_ids entries.
Proof.
  revert acc. induction entries as [|entry entries IH]; intros acc; simpl.
  { unfold entry_ids. simpl. rewrite elem_of_nil. tauto. }
  rewrite IH. unfold add_processed, entry_ids. simpl.
  destruct (entry_user_id entry) as [uid'|]; [|done].
  rewrite elem_of_union, elem_of_singleton, elem_of_cons. tauto.
Qed.

(** The done set of a file that holds an iterable value is the set of the
    ids of its entries. *)
Lemma elem_of_load_processed_user_ids disk data entries uid :
  json_load disk = Ok data →
  py_iter data = Some entries →
  uid ∈ load_processed_user_ids disk ↔ uid ∈ entry_ids entries.
Proof.
  intros Hload Hiter.
  unfold load_processed_user_ids, load_processed_user_ids_try.
  rewrite Hload, Hiter, elem_of_foldl_add_processed, elem_of_empty. tauto.
Qed.

Lemma not_elem_of_queue all_ids (processed : gset string) uid :
  uid ∈ processed → uid ∉ ids_to_process_queue all_ids processed.
Proof.
  unfold ids_to_process_queue. rewrite list_elem_of_filter. tauto.
Qed.

(** The loop over the finished batches: the list in memory grows by all
    the batches, and the file is either the one the loop started with or
    what was written of the dump of the old list followed by the first
    [k] batches. *)
Lemma foldl_handle_completed l disk completed :
  ∃ disk',
    foldl handle_completed (JList l, disk) completed
    = (JList (l ++ concat completed), disk') ∧
    (disk' = disk ∨
     ∃ k, disk' = Content (written_part
                             (json_dumps (JList (l ++ concat (take k completed)))))).
Proof.
  revert l disk.
  induction completed as [|batch completed IH]; intros l disk.
  { exists disk. simpl. rewrite app_nil_r. auto. }
  change (foldl handle_completed (JList l, disk) (batch :: completed))
    with (foldl handle_completed (handle_completed (JList l, disk) batch)
            completed).
  change (concat (batch :: completed)) with (batch ++ concat completed).
  assert (handle_completed (JList l, disk) batch
          = (JList (l ++ batch),
             save_results_to_json (JList (l ++ batch)) disk)) as ->.
  { destruct batch; simpl; [by rewrite app_nil_r|done]. }
  destruct (IH (l ++ batch) (save_results_to_json (JList (l ++ batch)) disk))
    as (disk' & -> & Hdisk').
  exists disk'. rewrite <-app_assoc. split; [done|].
  destruct Hdisk' as [->|[k ->]].
  - destruct (save_results_to_json_cases (JList (l ++ batch)) disk)
      as [[_ ->]|[_ ->]]; [by left|].
    right. exists 1. simpl. by rewrite app_nil_r.
  - right. exists (S k). simpl. by rewrite <-app_assoc.
Qed.

Lemma collect_preserves l disk completed :
  ∃ disk',
    collect (JList l) disk completed = (JList (l ++ concat completed), disk') ∧
    (disk' = disk ∨
     ∃ k, disk' = Content (written_part
                             (json_dumps (JList (l ++ concat (take k completed)))))).
Proof.
  unfold collect.
  destruct (foldl_handle_completed l disk completed) as (disk1 & -> & Hdisk1).
  eexists. split; [done|].
  destruct (save_results_to_json_cases (JList (l ++ concat completed)) disk1)
    as [[_ ->]|[_ ->]]; [done|].
  right. exists (length completed). by rewrite take_ge.
Qed.

Lemma completed_batches_ids env max_logs n batches results uid :
  results ∈ completed_batches env max_logs n batches →
  uid ∈ entry_ids results →
  ∃ batch, batch ∈ batches ∧ uid ∈ batch.
Proof.
  unfold completed_batches. rewrite list_elem_of_omap.
  intros (i & _ & Hi) Huid. case_decide; [|done].
  destruct (batches !! i) as [batch|] eqn:Hbatch; simplify_eq/=.
  rewrite entry_ids_worker in Huid.
  exists batch. split; [by eapply list_elem_of_lookup_2|done].
Qed.

(** C7, as the code has it: an id with an entry in the stored list,
    whatever its logs, is in the done set, hence neither in the pending
    queue nor in any batch given to a worker; and a run on that file ends
    with the file as it was or with what was written of a text that
    holds the old entries, in their order, followed by entries for
    pending ids only: all of that text when the write did not raise, its
    front part up to the point of failure when it did. *)
Theorem resume_skips_done (disk : file_state) (old : list json)
    (all_ids : list string) :
  json_load disk = Ok (JList old) →
  let processed := load_processed_user_ids disk in
  let queue := ids_to_process_queue all_ids processed in
  (∀ uid, uid ∈ processed ↔ uid ∈ entry_ids old) ∧
  (∀ uid logs, harvest_entry uid logs ∈ old → uid ∈ processed) ∧
  (∀ uid, uid ∈ processed →
     (uid ∉ queue) ∧ (∀ n batch, batch ∈ id_batches n queue → uid ∉ batch)) ∧
  (∀ args env, ∃ code disk',
     main args all_ids env disk = Exited code disk' ∧
     (disk' = disk ∨
      ∃ extra,
        disk' = Content (written_part (json_dumps (JList (old ++ extra)))) ∧
        (write_stops_at (json_dumps (JList (old ++ extra))) = None →
         disk' = Content (json_dumps (JList (old ++ extra)))) ∧
        ∀ uid, uid ∈ entry_ids extra → uid ∈ queue ∧ uid ∉ processed)).
Proof.
  intros Hload processed queue.
  assert (∀ uid, uid ∈ processed ↔ uid ∈ entry_ids old) as Hdone.
  { intros uid. by apply (elem_of_load_processed_user_ids _ (JList old)). }
  split_and!.
  - done.
  - intros uid logs Hin. apply Hdone. unfold entry_ids.
    apply list_elem_of_omap. exists (harvest_entry uid logs).
    split; [done|apply entry_user_id_harvest_entry].
  - intros uid Hin. split; [by apply not_elem_of_queue|].
    intros n batch Hbatch Huid.
    apply (not_elem_of_queue all_ids processed uid Hin).
    by eapply id_batches_subseteq.
  - intros args env. unfold main.
    destruct (startup_check args all_ids disk) as [code|queue'] eqn:Hstart;
      [by eauto|].
    assert (queue' = queue) as ->.
    { unfold startup_check in Hstart.
      destruct (credentials_rejected _ _); [done|].
      destruct all_ids; [done|]. fold processed in Hstart. fold queue in Hstart.
      destruct queue; by simplify_eq. }
    case_decide; [by eauto|].
    unfold initial_results. rewrite Hload. simpl.
    destruct (collect_preserves old disk
                (completed_batches env (arg_max_logs_per_user args)
                   (num_active_drivers env (arg_max_workers args))
                   (id_batches (num_active_drivers env (arg_max_workers args))
                      queue))) as (disk' & -> & Hdisk').
    exists 0%Z, disk'. split; [done|].
    destruct Hdisk' as [->|[k ->]]; [by left|]. right.
    eexists. split; [done|].
    split; [by intros ->%written_part_complete|]. intros uid Huid.
    unfold entry_ids in Huid. apply list_elem_of_omap in Huid as (e & He & Hid).
    apply elem_of_concat in He as (results & Hres & He).
    apply subseteq_take in Hres.
    destruct (completed_batches_ids _ _ _ _ results uid Hres)
      as (batch & Hb & Hu).
    { apply list_elem_of_omap. eauto. }
    pose proof (id_batches_subseteq _ _ _ _ Hb Hu) as Hq.
    split; [done|].
    unfold queue, ids_to_process_queue in Hq.
    apply list_elem_of_filter in Hq. tauto.
Qed.
End resume.

(** C1 as worded fails: a save interrupted right after the file is opened
    leaves an empty file, which is neither the new text nor the file as
    it was; the parser rejects it and the id that was done counts as
    pending again. *)
Lemma save_atomic_counterexample :
  @interrupted_save sample_lib 1 sample_new_results sample_disk
  = Content EmptyString ∧
  ¬ spec_atomic_outcome sample_disk sample_new_results
      (@interrupted_save sample_lib 1 sample_new_results sample_disk) ∧
  @json_loads sample_lib EmptyString = None ∧
  ids_to_process_queue ["7"] (@load_processed_user_ids sample_lib sample_disk)
  = [] ∧
  ids_to_process_queue ["7"]
    (@load_processed_user_ids sample_lib
       (@interrupted_save sample_lib 1 sample_new_results sample_disk))
  = ["7"].
Proof.
  split_and!; try (vm_compute; reflexivity).
  intros [Heq|Heq]; vm_compute in Heq; discriminate Heq.
Qed.

(** C2 as worded fails: merging a batch entry for an id that already has
    an entry keeps the old entry and leaves two entries with that id. *)
Lemma merge_upsert_counterexample :
  extend_results (JList [harvest_entry "7" []])
    [harvest_entry "7" [sample_record 7 "10.0.0.1"]]
  = Some (JList [harvest_entry "7" [];
                 harvest_entry "7" [sample_record 7 "10.0.0.1"]]) ∧
  harvest_entry "7" []
    ∈ [harvest_entry "7" []; harvest_entry "7" [sample_record 7 "10.0.0.1"]] ∧
  ¬ NoDup (@entry_ids sample_lib
             [harvest_entry "7" [];
              harvest_entry "7" [sample_record 7 "10.0.0.1"]]).
Proof.
  split_and!; [reflexivity|apply list_elem_of_here|].
  change (¬ NoDup ["7"; "7"]). intros Hnd.
  apply NoDup_cons in Hnd as [Hnotin _]. apply Hnotin, list_elem_of_here.
Qed.

(** C7 as worded fails: a first run on the ids 7 and 8 stores an entry
    for 7 only; the second run on the same ids and the same file fetches
    a record for 8 that the file's codec refuses, the write of the new
    list raises inside the save after 127 characters, and the run ends
    with status 0 and a file that holds the front part of the new text.
    That file does not parse: the entry of 7 is lost, and a third run
    would process 7 again. *)
Lemma resume_loses_entries_counterexample :
  @main sample_surrogate_lib sample_args_two_sessions ["7"; "8"]
     sample_first_run_env Absent
  = Exited 0 sample_disk ∧
  ids_to_process_queue ["7"; "8"]
    (@load_processed_user_ids sample_surrogate_lib sample_disk)
  = ["8"] ∧
  @main sample_surrogate_lib sample_args_two_sessions ["7"; "8"]
     sample_second_run_env sample_disk
  = Exited 0 sample_truncated_disk ∧
  @write_stops_at sample_surrogate_lib (json_dumps sample_second_run_results)
  = Some 127 ∧
  @json_load sample_surrogate_lib sample_truncated_disk
  = Raise JSONDecodeError ∧
  ¬ @spec_rerun_keeps_done sample_surrogate_lib sample_disk
      sample_truncated_disk ∧
  ids_to_process_queue ["7"; "8"]
    (@load_processed_user_ids sample_surrogate_lib sample_truncated_disk)
  = ["7"; "8"].
Proof.
  split_and!; try (vm_compute; reflexivity).
  intros Hkeeps. specialize (Hkeeps "7").
  assert ("7" ∈ @load_processed_user_ids sample_surrogate_lib sample_disk)
    as Hdone by (apply (bool_decide_unpack _); vm_compute; exact I).
  apply Hkeeps in Hdone. vm_compute in Hdone. discriminate Hdone.
Qed.

(** An id listed twice in the input is fetched twice and stored twice. *)
Example main_duplicate_ids :
  @main sample_lib (sample_args "admin" "secret") ["7"; "7"]
     sample_harvest_env Absent
  = Exited 0
      (Content (json_dumps
         (JList [harvest_entry "7" [sample_record 7 "10.0.0.1"];
                 harvest_entry "7" [sample_record 7 "10.0.0.1"]]))).
Proof. vm_compute. reflexivity. Qed.

Lemma resume_skips_done_witness :
  "7" ∉ ids_to_process_queue ["7"; "8"]
          (@load_processed_user_ids sample_lib sample_disk).
Proof.
  pose proof (@resume_skips_done sample_lib sample_disk sample_old_entries
                ["7"; "8"] ltac:(vm_compute; reflexivity))
    as (_ & Hentry & Hskip & _).
  apply Hskip. apply (Hentry "7" []). apply list_elem_of_here.
Defined.

(** * The correlation analysis *)

Section odict_props.
Context {K V : Type} `{EqDecision K}.
Implicit Types (d : list (K * V)) (k : K) (v : V).

Lemma dict_get_set_eq k v d : dict_get k (dict_set k v d) = Some v.
Proof.
  induction d as [|[k' v'] d IH]; simpl.
  - by rewrite decide_True.
  - destruct (decide (k' = k)) as [->|Hne]; simpl.
    + by rewrite decide_True.
    + by rewrite decide_False.
Qed.

Lemma dict_get_set_ne k k' v d :
  k ≠ k' → dict_get k' (dict_set k v d) = dict_get k' d.
Proof.
  intros Hne. induction d as [|[k0 v0] d IH]; simpl.
  - by rewrite decide_False.
  - destruct (decide (k0 = k)) as [->|Hne0]; simpl.
    + by rewrite !decide_False.
    + by rewrite IH.
Qed.

Lemma dict_get_None k d : dict_get k d = None ↔ k ∉ dict_keys d.
Proof.
  unfold dict_keys. induction d as [|[k' v'] d IH]; simpl.
  - rewrite elem_of_nil. tauto.
  - rewrite not_elem_of_cons. destruct (decide (k' = k)) as [->|Hne].
    + split; [done|tauto].
    + rewrite IH. split; [by auto|tauto].
Qed.

Lemma dict_get_Some_elem_of k v d : dict_get k d = Some v → (k, v) ∈ d.
Proof.
  induction d as [|[k' v'] d IH]; simpl; [done|].
  destruct (decide (k' = k)) as [->|Hne].
  - intros [= ->]. apply list_elem_of_here.
  - intros Hget. apply list_elem_of_further. auto.
Qed.

Lemma elem_of_dict_get k v d :
  NoDup (dict_keys d) → (k, v) ∈ d → dict_get k d = Some v.
Proof.
  unfold dict_keys. induction d as [|[k' v'] d IH]; simpl.
  - by intros _ ?%elem_of_nil.
  - intros [Hnotin Hnd]%NoDup_cons [Heq|Hin]%elem_of_cons.
    + simplify_eq. by rewrite decide_True.
    + rewrite decide_False; [auto|]. intros ->. apply Hnotin.
      apply list_elem_of_fmap. by exists (k, v).
Qed.

Lemma elem_of_dict_keys_set k k' v d :
  k' ∈ dict_keys (dict_set k v d) ↔ k' = k ∨ k' ∈ dict_keys d.
Proof.
  unfold dict_keys. induction d as [|[k0 v0] d IH]; simpl.
  - rewrite list_elem_of_singleton, elem_of_nil. tauto.
  - destruct (decide (k0 = k)) as [->|Hne]; simpl.
    + rewrite elem_of_cons. tauto.
    + rewrite !elem_of_cons, IH. tauto.
Qed.

Lemma NoDup_dict_keys_set k v d :
  NoDup (dict_keys d) → NoDup (dict_keys (dict_set k v d)).
Proof.
  unfold dict_keys. induction d as [|[k0 v0] d IH]; simpl.
  - intros _. apply NoDup_singleton.
  - intros [Hnotin Hnd]%NoDup_cons.
    destruct (decide (k0 = k)) as [->|Hne]; simpl.
    + by apply NoDup_cons.
    + apply NoDup_cons. split; [|auto].
      intros [?|?]%elem_of_dict_keys_set; [done|]. by apply Hnotin.
Qed.
End odict_props.

Lemma NoDup_length_two {A} (l : list A) :
  NoDup l → (1 < length l ↔ ∃ a b, a ≠ b ∧ a ∈ l ∧ b ∈ l).
Proof.
  intros Hnd. split.
  - destruct l as [|a [|b l]]; simpl; [lia|lia|]. intros _.
    exists a, b. apply NoDup_cons in Hnd as [Hnotin _].
    split_and!; [|apply list_elem_of_here
                 |apply list_elem_of_further, list_elem_of_here].
    intros ->. apply Hnotin, list_elem_of_here.
  - intros (a & b & Hne & Ha & Hb).
    destruct l as [|x [|y l]]; simpl; [|exfalso|lia].
    + by apply elem_of_nil in Ha.
    + apply list_elem_of_singleton in Ha, Hb. congruence.
Qed.

Section analysis.
Context {U I : Type} `{EqDecision U, EqDecision I}.
Implicit Types (m : @id_map U I) (data : list (log_record U I)).
Implicit Types (field : log_record U I → option I) (r : log_record U I).
Implicit Types (st : @id_map U I * @id_map U I * @id_map U I).

Lemma users_of_record_use v u ts m v' :
  users_of (record_use v u ts m) v'
  = if decide (v = v')
    then dict_set u (bump ts (default fresh_details (dict_get u (users_of m v))))
           (users_of m v)
    else users_of m v'.
Proof.
  unfold users_of, record_use. case_decide as Hv.
  - subst v'. by rewrite dict_get_set_eq.
  - by rewrite dict_get_set_ne.
Qed.

(** One record adds its user to the users of its field value, and only
    when it carries a user id and a timestamp. *)
Lemma elem_of_users_scan_field field m r v u :
  u ∈ dict_keys (users_of (scan_field field m r) v) ↔
  u ∈ dict_keys (users_of m v) ∨
  (field r = Some v ∧ userId r = Some u ∧ is_Some (timestamp r)).
Proof.
  unfold scan_field, record_field.
  destruct (userId r) as [u'|], (timestamp r) as [ts|];
    try (split; [by left|intros [?|(_ & ? & [? ?])]; done]).
  destruct (field r) as [v'|]; [|split; [by left|by intros [?|[? _]]]].
  rewrite users_of_record_use. case_decide as Hv.
  - subst v'. rewrite elem_of_dict_keys_set. split.
    + intros [->|?]; [right|by left]. done.
    + intros [?|(_ & [= ->] & _)]; [by right|by left].
  - split; [by left|]. intros [?|([= ?] & _)]; done.
Qed.

Lemma NoDup_users_scan_field field m r v :
  NoDup (dict_keys (users_of m v)) →
  NoDup (dict_keys (users_of (scan_field field m r) v)).
Proof.
  intros Hnd. unfold scan_field, record_field.
  destruct (userId r) as [u'|], (timestamp r) as [ts|]; try done.
  destruct (field r) as [v'|]; [|done].
  rewrite users_of_record_use. case_decide as Hv; [|done].
  subst v'. by apply NoDup_dict_keys_set.
Qed.

Lemma NoDup_keys_scan_field field m r :
  NoDup (dict_keys m) → NoDup (dict_keys (scan_field field m r)).
Proof.
  intros Hnd. unfold scan_field, record_field.
  destruct (userId r) as [u'|], (timestamp r) as [ts|]; try done.
  destruct (field r) as [v'|]; [|done].
  by apply NoDup_dict_keys_set.
Qed.

Lemma scan_field_fold field data m :
  let m' := foldl (scan_field field) m data in
  (NoDup (dict_keys m) → NoDup (dict_keys m')) ∧
  (∀ v, NoDup (dict_keys (users_of m v)) → NoDup (dict_keys (users_of m' v))) ∧
  (∀ v u, u ∈ dict_keys (users_of m' v) ↔
          u ∈ dict_keys (users_of m v) ∨ seen_with field data v u).
Proof.
  revert m. induction data as [|r data IH]; intros m; simpl.
  { split_and!; [done..|]. intros v u. split; [by left|].
    intros [?|(r & []%elem_of_nil & _)]. done. }
  destruct (IH (scan_field field m r)) as (IH1 & IH2 & IH3).
  split_and!.
  - intros Hnd. by apply IH1, NoDup_keys_scan_field.
  - intros v Hnd. by apply IH2, NoDup_users_scan_field.
  - intros v u. rewrite IH3, elem_of_users_scan_field. unfold seen_with. split.
    + intros [[?|(? & ? & ?)]|(r' & ? & ?)]; [by left|right..].
      * exists r. split; [apply list_elem_of_here|done].
      * exists r'. split; [by apply list_elem_of_further|done].
    + intros [?|(r' & [->|?]%elem_of_cons & ?)]; [by left; left| |].
      * left. by right.
      * right. by exists r'.
Qed.

(** An identifier value is kept by [shared] exactly when it has more than
    one user. *)
Lemma elem_of_dict_keys_shared m v :
  NoDup (dict_keys m) →
  v ∈ dict_keys (shared m) ↔ 1 < length (users_of m v).
Proof.
  intros Hnd. unfold shared, dict_keys, users_of.
  rewrite list_elem_of_fmap. split.
  - intros ([v' users] & -> & [Hlen Hin]%list_elem_of_filter). simpl in *.
    by rewrite (elem_of_dict_get _ _ _ Hnd Hin).
  - destruct (dict_get v m) as [users|] eqn:Hget; simpl; [|lia].
    intros Hlen. exists (v, users). split; [done|].
    apply list_elem_of_filter. split; [done|].
    by apply dict_get_Some_elem_of.
Qed.

Lemma shared_fold_iff field data v :
  v ∈ dict_keys (shared (foldl (scan_field field) [] data)) ↔
  shared_by field data v.
Proof.
  destruct (scan_field_fold field data []) as (Hkeys & Husers & Hseen).
  rewrite elem_of_dict_keys_shared by (apply Hkeys, NoDup_nil_2).
  rewrite <-(length_fmap fst). fold (dict_keys (users_of
    (foldl (scan_field field) [] data) v)).
  rewrite NoDup_length_two by (apply Husers, NoDup_nil_2).
  unfold shared_by. split.
  - intros (u1 & u2 & Hne & [[]%elem_of_nil|(r1 & ? & ? & ? & ?)]%Hseen
                          & [[]%elem_of_nil|(r2 & ? & ? & ? & ?)]%Hseen).
    by exists r1, r2, u1, u2.
  - intros (r1 & r2 & u1 & u2 & ? & ? & ? & ? & ? & ? & ? & ? & ?).
    exists u1, u2. split_and!; [done|apply Hseen; right..].
    + by exists r1.
    + by exists r2.
Qed.

Lemma scan_record_fields st r :
  scan_record st r
  = (scan_field hwid st.1.1 r, scan_field socialClubId st.1.2 r,
     scan_field ip st.2 r).
Proof.
  destruct st as [[h s] i]. unfold scan_record, scan_field. simpl.
  by destruct (userId r), (timestamp r).
Qed.

Lemma foldl_scan_record data st :
  foldl scan_record st data
  = (foldl (scan_field hwid) st.1.1 data,
     foldl (scan_field socialClubId) st.1.2 data,
     foldl (scan_field ip) st.2 data).
Proof.
  revert st. induction data as [|r data IH]; intros st; simpl.
  - by destruct st as [[? ?] ?].
  - by rewrite IH, scan_record_fields.
Qed.

Lemma analyze_data_fields data :
  analyze_data data
  = (shared (foldl (scan_field hwid) [] data),
     shared (foldl (scan_field socialClubId) [] data),
     shared (foldl (scan_field ip) [] data)).
Proof.
  unfold analyze_data. destruct data as [|r data]; [done|].
  by rewrite foldl_scan_record.
Qed.

Lemma scan_record_incomplete st r :
  ¬ complete_record r → scan_record st r = st.
Proof.
  unfold complete_record, scan_record. intros Hr.
  destruct (userId r), (timestamp r); try done.
  destruct Hr. split; by eexists.
Qed.

Lemma foldl_scan_record_filter data st :
  foldl scan_record st (filter complete_record data)
  = foldl scan_record st data.
Proof.
  revert st. induction data as [|r data IH]; intros st; [done|].
  destruct (decide (complete_record r)) as [Hr|Hr].
  - rewrite filter_cons_True by done. simpl. apply IH.
  - rewrite filter_cons_False by done. simpl.
    by rewrite scan_record_incomplete, IH.
Qed.

(** C5: for each of hwid, socialClubId and ip, the analysis returns an
    identifier value as shared exactly when it occurs with two distinct
    user ids on records that have a user id and a timestamp; a record
    without user id or without timestamp changes none of the three maps,
    so removing such records does not change the result. *)
Theorem sharing_threshold (data : list (log_record U I)) :
  (∀ v, v ∈ dict_keys (analyze_data data).1.1 ↔ shared_by hwid data v) ∧
  (∀ v, v ∈ dict_keys (analyze_data data).1.2
        ↔ shared_by socialClubId data v) ∧
  (∀ v, v ∈ dict_keys (analyze_data data).2 ↔ shared_by ip data v) ∧
  (∀ st r, ¬ complete_record r → scan_record st r = st) ∧
  analyze_data (filter complete_record data) = analyze_data data.
Proof.
  rewrite analyze_data_fields. simpl. split_and!.
  - apply shared_fold_iff.
  - apply shared_fold_iff.
  - apply shared_fold_iff.
  - apply scan_record_incomplete.
  - rewrite analyze_data_fields.
    pose proof (foldl_scan_record_filter data ([], [], [])) as Hfilter.
    rewrite !foldl_scan_record in Hfilter. simpl in Hfilter.
    injection Hfilter as -> -> ->. done.
Qed.
End analysis.

(** ** The ranking inside a shared group *)

Lemma str_gt_iff (a b : string) : str_gt a b = true ↔ ¬ (a ≤ b)%string.
Proof.
  unfold str_gt, String.le, String.leb.
  destruct (String.compare a b); simpl; split; try done; tauto.
Qed.

Lemma key_lt_false_iff (d d' : details) :
  key_lt (count d, last_seen d) (count d', last_seen d') = false ↔
  ranks_at_least d d'.
Proof.
  unfold key_lt, ranks_at_least. simpl.
  rewrite orb_false_iff, andb_false_iff, Nat.ltb_ge, Nat.eqb_neq.
  rewrite <-not_true_iff_false, str_gt_iff.
  destruct (decide ((last_seen d' ≤ last_seen d)%string)) as [Hle|Hnle].
  - split.
    + intros [Hcount _].
      destruct (decide (count d' = count d)); [by right|left; lia].
    + intros [?|[? _]]; (split; [lia|]); [left; lia|right; tauto].
  - split.
    + intros [Hcount [?|?]]; [left; lia|tauto].
    + intros [?|[_ ?]]; [|done]. split; [lia|left; lia].
Qed.

Lemma ranks_at_least_refl (d : details) : ranks_at_least d d.
Proof. right. split; [done|reflexivity]. Qed.

Lemma ranks_at_least_trans (d1 d2 d3 : details) :
  ranks_at_least d1 d2 → ranks_at_least d2 d3 → ranks_at_least d1 d3.
Proof.
  unfold ranks_at_least. intros [?|[? ?]] [?|[? ?]]; try (left; lia).
  right. split; [lia|]. by etrans.
Qed.

Lemma ranks_at_least_total (d1 d2 : details) :
  ranks_at_least d1 d2 ∨ ranks_at_least d2 d1.
Proof.
  unfold ranks_at_least.
  destruct (lt_eq_lt_dec (count d1) (count d2)) as [[?|?]|?]; [by auto..| |by auto].
  destruct (total String.le (last_seen d1) (last_seen d2)); [right|left]; by right.
Qed.

Section ranking.
Context {U I : Type} `{EqDecision U, EqDecision I}.
Implicit Types (x y : U * details) (l group : list (U * details)).

Lemma elem_of_insert_desc x y l : y ∈ insert_desc x l ↔ y = x ∨ y ∈ l.
Proof.
  induction l as [|z l IH]; simpl.
  - rewrite list_elem_of_singleton, elem_of_nil. tauto.
  - destruct (key_lt (sort_key x) (sort_key z)).
    + rewrite !elem_of_cons, IH. tauto.
    + rewrite !elem_of_cons. tauto.
Qed.

Lemma elem_of_sorted_desc y l : y ∈ sorted_desc l ↔ y ∈ l.
Proof.
  induction l as [|x l IH]; simpl; [done|].
  by rewrite elem_of_insert_desc, elem_of_cons, IH.
Qed.

(** The first item of the sorted list ranks at least as high as every
    item of the group. *)
Lemma sorted_desc_head l :
  match sorted_desc l with
  | [] => l = []
  | x :: _ => x ∈ l ∧ ∀ y, y ∈ l → ranks_at_least x.2 y.2
  end.
Proof.
  induction l as [|a l IH]; simpl; [done|].
  destruct (sorted_desc l) as [|x rest] eqn:Hsorted; simpl.
  { subst l. split; [apply list_elem_of_here|].
    intros y ->%list_elem_of_singleton. apply ranks_at_least_refl. }
  destruct IH as [Hx Hmax].
  destruct (key_lt (sort_key a) (sort_key x)) eqn:Hlt.
  - split; [by apply list_elem_of_further|].
    intros y [->|Hy]%elem_of_cons; [|by apply Hmax].
    destruct (ranks_at_least_total x.2 a.2) as [?|Hax]; [done|].
    apply key_lt_false_iff in Hax. unfold sort_key in Hlt. congruence.
  - apply key_lt_false_iff in Hlt.
    split; [apply list_elem_of_here|].
    intros y [->|Hy]%elem_of_cons; [apply ranks_at_least_refl|].
    eapply ranks_at_least_trans; [done|by apply Hmax].
Qed.

Lemma primary_is_maximum (k : id_kind) (v : I) group :
  group ≠ [] →
  ∃ primary d rest,
    print_group k v group = LineValue k v :: LinePrimary primary d :: rest ∧
    (primary, d) ∈ group ∧
    (∀ u d', (u, d') ∈ group → ranks_at_least d d') ∧
    (∀ line, line ∈ rest ↔
       ∃ u d', line = LineSecondary u d' ∧ (u, d') ∈ group ∧ u ≠ primary).
Proof.
  intros Hne. unfold print_group.
  pose proof (sorted_desc_head group) as Hhead.
  pose proof (λ y, elem_of_sorted_desc y group) as Hsame.
  destruct (sorted_desc group) as [|[primary d] sorted] eqn:Hsorted; [done|].
  destruct Hhead as [Hin Hmax].
  exists primary, d,
    ((λ item, LineSecondary item.1 item.2)
       <$> filter (λ item, item.1 ≠ primary) sorted).
  split_and!.
  - rewrite filter_cons_False; [done|]. simpl. by intros Hn.
  - done.
  - intros u d' Hu. apply (Hmax (u, d') Hu).
  - intros line. rewrite list_elem_of_fmap. split.
    + intros ([u d'] & -> & [Hu Hel]%list_elem_of_filter).
      exists u, d'. split_and!; [done| |done].
      by apply Hsame, list_elem_of_further.
    + intros (u & d' & -> & Hel & Hu). exists (u, d'). split; [done|].
      apply list_elem_of_filter. split; [done|].
      apply Hsame, elem_of_cons in Hel as [[= -> _]|?]; done.
Qed.

Lemma print_kind_groups (k : id_kind) (shared_map : @id_map U I) v group line :
  (v, group) ∈ shared_map →
  line ∈ print_group k v group →
  line ∈ print_kind k shared_map.
Proof.
  intros Hin Hline. unfold print_kind.
  destruct shared_map as [|kv rest] eqn:Hmap; [by apply elem_of_nil in Hin|].
  rewrite <-Hmap in *. apply list_elem_of_further, list_elem_of_bind.
  by exists (v, group).
Qed.
End ranking.

Section report_primary.
Context {U I : Type} `{EqDecision U, EqDecision I}.
Implicit Types (k : id_kind) (m : @id_map U I) (group : list (U * details)).

(** The block of a group is a contiguous part of the report. *)
Lemma print_kind_block k m (v : I) group :
  (v, group) ∈ m →
  ∃ pre post, print_kind k m = pre ++ print_group k v group ++ post.
Proof.
  intros (l1 & l2 & ->)%list_elem_of_split. unfold print_kind.
  exists (LineSharedHeader k :: (l1 ≫= λ kv, print_group k kv.1 kv.2)),
         (l2 ≫= λ kv, print_group k kv.1 kv.2).
  destruct l1; simpl; [done|]. by rewrite bind_app, <-!app_assoc.
Qed.

Lemma print_results_block k (v : I) group m1 m2 m3 :
  (v, group) ∈ kind_result k (m1, m2, m3) →
  ∃ pre post, print_results m1 m2 m3 = pre ++ print_group k v group ++ post.
Proof.
  intros Hin. unfold print_results.
  destruct k; simpl in Hin;
    [destruct (print_kind_block KindHwid _ v group Hin) as (pre & post & ->)
    |destruct (print_kind_block KindSocialClub _ v group Hin)
       as (pre & post & ->)
    |destruct (print_kind_block KindIp _ v group Hin) as (pre & post & ->)].
  - exists (LineResultsHeader :: pre),
           (post ++ print_kind KindSocialClub m2 ++ print_kind KindIp m3
                 ++ [LineEnd]).
    set (pg := print_group _ v group). clearbody pg.
    simpl. by rewrite <-!app_assoc.
  - exists (LineResultsHeader :: print_kind KindHwid m1 ++ pre),
           (post ++ print_kind KindIp m3 ++ [LineEnd]).
    set (pg := print_group _ v group). clearbody pg.
    simpl. by rewrite <-!app_assoc.
  - exists (LineResultsHeader :: print_kind KindHwid m1
              ++ print_kind KindSocialClub m2 ++ pre),
           (post ++ [LineEnd]).
    set (pg := print_group _ v group). clearbody pg.
    simpl. by rewrite <-!app_assoc.
Qed.

(** A line about a user comes from the block of a group of the maps. *)
Lemma user_line_print_kind k m (line : report_line U I) :
  line ∈ print_kind k m → is_Some (line_user line) →
  ∃ v group, (v, group) ∈ m ∧ line ∈ print_group k v group.
Proof.
  unfold print_kind. destruct m as [|kv0 m'] eqn:Hm.
  { intros ->%list_elem_of_singleton [? ?]. done. }
  rewrite <-Hm. clear Hm.
  intros [->|Hin]%elem_of_cons; [by intros [? ?]|]. intros _.
  apply list_elem_of_bind in Hin as ([v group] & Hline & Hkv). eauto.
Qed.

Lemma user_line_print_results m1 m2 m3 (line : report_line U I) :
  line ∈ print_results m1 m2 m3 → is_Some (line_user line) →
  ∃ k v group,
    (v, group) ∈ kind_result k (m1, m2, m3) ∧ line ∈ print_group k v group.
Proof.
  unfold print_results. rewrite elem_of_cons, !elem_of_app.
  intros [->|[Hin|[Hin|[Hin|Hin]]]] Huser.
  - by destruct Huser.
  - destruct (user_line_print_kind _ _ _ Hin Huser) as (v & group & ? & ?).
    by exists KindHwid, v, group.
  - destruct (user_line_print_kind _ _ _ Hin Huser) as (v & group & ? & ?).
    by exists KindSocialClub, v, group.
  - destruct (user_line_print_kind _ _ _ Hin Huser) as (v & group & ? & ?).
    by exists KindIp, v, group.
  - apply list_elem_of_singleton in Hin as ->. by destruct Huser.
Qed.

(** The user lines of one block. *)
Lemma print_group_user_lines k (v : I) group (line : report_line U I) :
  line ∈ print_group k v group → is_Some (line_user line) →
  ∃ primary d,
    (primary, d) ∈ group ∧
    (∀ u d', (u, d') ∈ group → ranks_at_least d d') ∧
    (line = LinePrimary primary d ∨
     ∃ u d', line = LineSecondary u d' ∧ (u, d') ∈ group ∧ u ≠ primary).
Proof.
  intros Hin Huser. destruct (decide (group = [])) as [->|Hne].
  { simpl in Hin.
    apply elem_of_cons in Hin as [->|Hin]; [by destruct Huser|].
    apply list_elem_of_singleton in Hin as ->. by destruct Huser. }
  destruct (primary_is_maximum k v group Hne)
    as (primary & d & rest & Hprint & Hp & Hmax & Hrest).
  rewrite Hprint in Hin. exists primary, d. split_and!; [done..|].
  apply elem_of_cons in Hin as [->|Hin]; [by destruct Huser|].
  apply elem_of_cons in Hin as [->|Hin]; [by left|].
  right. by apply Hrest.
Qed.

(** One block has one primary line, unless the group has no user. *)
Lemma filter_primary_secondary (l : list (U * details)) :
  filter (λ line : report_line U I, is_primary_line line = true)
         ((λ item, LineSecondary item.1 item.2) <$> l) = [].
Proof. induction l as [|x l IH]; [done|]. by rewrite fmap_cons, filter_cons_False. Qed.

Lemma primary_lines_print_group k (v : I) group :
  length (filter (λ line : report_line U I, is_primary_line line = true)
            (print_group k v group))
  = if decide (group = []) then 0 else 1.
Proof.
  unfold print_group. pose proof (sorted_desc_head group) as Hhead.
  destruct (sorted_desc group) as [|[primary d] sorted]; simpl in Hhead.
  - by rewrite decide_True.
  - rewrite decide_False.
    2:{ intros ->. destruct Hhead as [Hin _]. by apply elem_of_nil in Hin. }
    rewrite filter_cons_False, filter_cons_True by done.
    by rewrite filter_primary_secondary.
Qed.

Lemma primary_lines_print_kind k m :
  length (filter (λ line : report_line U I, is_primary_line line = true)
            (print_kind k m))
  = length (filter (λ kv, kv.2 ≠ []) m).
Proof.
  unfold print_kind. destruct m as [|kv0 m'] eqn:Hm; [done|].
  rewrite <-Hm. clear Hm. rewrite filter_cons_False by done.
  induction m as [|[v group] m IH]; [done|].
  rewrite bind_cons, filter_app, length_app, IH, primary_lines_print_group.
  unfold id_map. destruct (decide (group = [])) as [->|Hne].
  - rewrite filter_cons_False by (simpl; by intros Hn).
    by rewrite decide_True.
  - rewrite filter_cons_True by done. by rewrite decide_False.
Qed.

Lemma primary_lines_print_results m1 m2 m3 :
  length (filter (λ line : report_line U I, is_primary_line line = true)
            (print_results m1 m2 m3))
  = length (filter (λ kv, kv.2 ≠ []) (m1 ++ m2 ++ m3)).
Proof.
  unfold print_results, id_map in *. rewrite filter_cons_False by done.
  rewrite !filter_app, !length_app, !primary_lines_print_kind.
  unfold id_map. simpl. lia.
Qed.
End report_primary.

(** C6: in the report that [print_results] gives for three maps, every
    group with a user has its block, a contiguous part of the report:
    the line of the identifier value, then the "likely primary" line of
    a user of the group that ranks at least as high as every user of the
    group by count and then by last-seen timestamp (compared as
    strings), then secondary lines for exactly the other users of the
    group.  The report has no other primary or secondary lines: every
    primary line names a top-ranked user of a group, every secondary line
    a user of a group other than its primary, and there are as many
    primary lines as groups with a user.  For the group of the example
    the primary is user 2 and user 1 is secondary. *)
Theorem primary_ranking :
  (∀ (U I : Type) `{EqDecision U, EqDecision I}
     (shared_hwids shared_social_clubs shared_ips : @id_map U I),
     let res := (shared_hwids, shared_social_clubs, shared_ips) in
     let report := print_results shared_hwids shared_social_clubs shared_ips in
     (∀ k v group,
        (v, group) ∈ kind_result k res → group ≠ [] →
        ∃ primary d rest pre post,
          report
          = pre ++ (LineValue k v :: LinePrimary primary d :: rest) ++ post ∧
          (primary, d) ∈ group ∧
          (∀ u d', (u, d') ∈ group → ranks_at_least d d') ∧
          (∀ line, line ∈ rest ↔
             ∃ u d', line = LineSecondary u d' ∧ (u, d') ∈ group ∧
                     u ≠ primary)) ∧
     (∀ primary d,
        LinePrimary primary d ∈ report →
        ∃ k v group,
          (v, group) ∈ kind_result k res ∧ (primary, d) ∈ group ∧
          ∀ u d', (u, d') ∈ group → ranks_at_least d d') ∧
     (∀ u d',
        LineSecondary u d' ∈ report →
        ∃ k v group primary d,
          (v, group) ∈ kind_result k res ∧ (u, d') ∈ group ∧
          (primary, d) ∈ group ∧ u ≠ primary ∧ ranks_at_least d d') ∧
     length (filter (λ line, is_primary_line line = true) report)
     = length (filter (λ kv, kv.2 ≠ [])
                 (shared_hwids ++ shared_social_clubs ++ shared_ips))) ∧
  print_results [("hw", example_group)] [] []
  = [LineResultsHeader;
     LineSharedHeader KindHwid;
     LineValue KindHwid "hw";
     LinePrimary 2%Z {| count := 3; last_seen := "2024-01-03" |};
     LineSecondary 1%Z {| count := 3; last_seen := "2024-01-02" |};
     LineNoneShared KindSocialClub;
     LineNoneShared KindIp;
     LineEnd].
Proof.
  split; [|reflexivity].
  intros U I ? ? m1 m2 m3 res report. split_and!.
  - intros k v group Hin Hne.
    destruct (print_results_block k v group m1 m2 m3 Hin)
      as (pre & post & Hreport).
    destruct (primary_is_maximum k v group Hne)
      as (primary & d & rest & Hprint & Hp & Hmax & Hrest).
    exists primary, d, rest, pre, post. unfold report.
    by rewrite Hreport, Hprint.
  - intros primary d Hline.
    destruct (user_line_print_results m1 m2 m3 _ Hline)
      as (k & v & group & Hin & Hgroup); [by eexists|].
    destruct (print_group_user_lines k v group _ Hgroup)
      as (p & d0 & Hp & Hmax & [[= -> ->]|(? & ? & ? & _)]);
      [by eexists| |done].
    by exists k, v, group.
  - intros u d' Hline.
    destruct (user_line_print_results m1 m2 m3 _ Hline)
      as (k & v & group & Hin & Hgroup); [by eexists|].
    destruct (print_group_user_lines k v group _ Hgroup)
      as (p & d0 & Hp & Hmax & [?|(? & ? & [= <- <-] & Hu & Hne)]);
      [by eexists|done|].
    exists k, v, group, p, d0. split_and!; try done. by apply (Hmax u d').
  - apply primary_lines_print_results.
Qed.

Lemma primary_ranking_witness :
  ∃ pre post,
    print_results [("hw", example_group)] [] []
    = pre ++ [LineValue KindHwid "hw";
              LinePrimary 2%Z {| count := 3; last_seen := "2024-01-03" |};
              LineSecondary 1%Z {| count := 3; last_seen := "2024-01-02" |}]
          ++ post.
Proof.
  destruct (proj1 (proj1 primary_ranking Z string _ _
                     [("hw", example_group)] [] [])
              KindHwid "hw" example_group
              ltac:(apply list_elem_of_here) ltac:(discriminate))
    as (primary & d & rest & pre & post & Hreport & _).
  exists [LineResultsHeader; LineSharedHeader KindHwid],
         [LineNoneShared KindSocialClub; LineNoneShared KindIp; LineEnd].
  reflexivity.
Defined.

(** The sharing example of the specification. *)
Example analyze_data_example :
  analyze_data
    [ {| userId := Some 1%Z; hwid := Some "A"; socialClubId := None;
         ip := None; timestamp := Some "t1" |};
      {| userId := Some 2%Z; hwid := Some "A"; socialClubId := None;
         ip := None; timestamp := Some "t2" |};
      {| userId := Some 3%Z; hwid := Some "B"; socialClubId := None;
         ip := None; timestamp := Some "t3" |} ]
  = ([("A", [(1%Z, {| count := 1; last_seen := "t1" |});
             (2%Z, {| count := 1; last_seen := "t2" |})])], [], []).
Proof. reflexivity. Qed.

(** * Further properties of the harvester *)

(** Closed decidable facts about the sample data. *)
Local Ltac by_decision := apply (bool_decide_unpack _); vm_compute; exact I.

Section capture_props.
Context `{PyLib}.

Lemma latest_data_request_snoc requests r :
  latest_data_request (requests ++ [r])
  = if is_data_request r then Some r else latest_data_request requests.
Proof. unfold latest_data_request. by rewrite rev_app_distr. Qed.

Lemma latest_data_request_app_no_match requests later :
  Forall (λ r, is_data_request r = false) later →
  latest_data_request (requests ++ later) = latest_data_request requests.
Proof.
  induction later as [|r later IH] using rev_ind; intros Hall.
  { by rewrite app_nil_r. }
  apply Forall_app in Hall as [Hlater [Hr _]%Forall_cons].
  by rewrite app_assoc, latest_data_request_snoc, Hr, IH.
Qed.

(** Only the most recent POST to the data path counts: what came before
    it is never looked at, whatever its response (there is no fall-back
    to an older good response), and requests of other kinds after it are
    skipped.  Without such a request there is no page. *)
Theorem capture_latest_request_wins (before after : list request) (r : request) :
  is_data_request r = true →
  Forall (λ r', is_data_request r' = false) after →
  capture_latest_data_request (before ++ r :: after)
  = capture_latest_data_request [r] ∧
  capture_latest_data_request after = None.
Proof.
  intros Hr Hafter. unfold capture_latest_data_request. split.
  - rewrite (cons_middle r before after), app_assoc.
    rewrite latest_data_request_app_no_match by done.
    rewrite latest_data_request_snoc, Hr.
    change (latest_data_request [r]) with
      (if is_data_request r then Some r else None). by rewrite Hr.
  - rewrite <-(app_nil_l after), latest_data_request_app_no_match by done.
    done.
Qed.
End capture_props.

Lemma capture_latest_request_wins_witness :
  @capture_latest_data_request sample_lib
     ([sample_request (JList [])]
      ++ sample_request (JDict [("error", JStr "denied")])
         :: [sample_other_request])
  = @capture_latest_data_request sample_lib
      [sample_request (JDict [("error", JStr "denied")])].
Proof.
  apply (@capture_latest_request_wins sample_lib).
  - vm_compute. reflexivity.
  - constructor; [vm_compute; reflexivity|constructor].
Defined.

Section fetch_props.
Context `{PyLib}.

(** The logs at the end of the loop are the logs at its start followed by
    the records of the pages visited, in page order. *)
Lemma fetch_loop_pages fuel pages max_logs page_count user_logs r :
  fetch_loop fuel pages max_logs page_count user_logs = Some r →
  ∃ k, k ≤ fuel ∧
    match r with LoopDone logs | LoopRaised logs => logs end
    = user_logs ++ concat (page_records pages <$> seq page_count k).
Proof.
  revert page_count user_logs.
  induction fuel as [|fuel IH]; intros page_count user_logs; [done|].
  simpl. case_bool_decide.
  2:{ intros [= <-]. exists 0. split; [lia|]. by rewrite app_nil_r. }
  destruct (obs_capture (pages page_count)) as [|requests] eqn:Hobs.
  { intros [= <-]. exists 0. split; [lia|]. by rewrite app_nil_r. }
  destruct (capture_latest_data_request requests) as [[|record page]|] eqn:Hcap;
    try (intros [= <-]; exists 0; split; [lia|]; by rewrite app_nil_r).
  assert (page_records pages page_count = record :: page) as Hpage.
  { unfold page_records. by rewrite Hobs, Hcap. }
  assert (∀ logs, logs = user_logs ++ record :: page →
            ∃ k, k ≤ S fuel ∧
              logs = user_logs ++ concat (page_records pages <$> seq page_count k))
    as Hone.
  { intros logs ->. exists 1. split; [lia|]. simpl.
    by rewrite Hpage, app_nil_r. }
  case_bool_decide; [intros [= <-]; by apply Hone|].
  destruct (obs_next (pages page_count));
    try (intros [= <-]; by apply Hone).
  intros (k & Hk & ->)%IH. exists (S k). split; [lia|].
  simpl. by rewrite Hpage, <-app_assoc.
Qed.

(** When the steps before the loop succeed, the logs returned for a user
    are the first [max_logs] records of the first [k] pages, for some
    [k]: records are neither invented nor reordered nor skipped. *)
Theorem fetched_logs_are_leading_records (env : fetch_env) (user_id : string)
    (max_logs : Z) :
  env_setup env = SetupOk →
  ∃ k,
    search_and_fetch_logs_for_id env user_id max_logs
    = Some (user_id,
            take (Z.to_nat max_logs)
              (concat (page_records (env_pages env) <$> seq 1 k))).
Proof.
  intros Hsetup. unfold search_and_fetch_logs_for_id. rewrite Hsetup.
  destruct (decide (max_logs ≤ 0)%Z) as [Hneg|Hpos].
  { unfold fetch_fuel. rewrite fetch_loop_no_turn by done. exists 0.
    simpl. unfold py_slice_to. rewrite !take_nil. by case_bool_decide. }
  destruct (fetch_loop_enough_fuel (fetch_fuel max_logs) (env_pages env)
              max_logs 1 []) as (r & Hr & Hbound).
  { unfold fetch_fuel. lia. }
  { unfold fetch_fuel. simpl. lia. }
  rewrite Hr. apply fetch_loop_pages in Hr as (k & _ & Hlogs). simpl in Hlogs.
  exists k. destruct r as [logs|logs]; subst logs.
  - unfold py_slice_to. by rewrite bool_decide_false by lia.
  - rewrite take_ge; [done|lia].
Qed.

Lemma process_id_batch_worker_lookup envs id_batch max_logs i :
  process_id_batch_worker envs id_batch max_logs !! i
  = (λ user_id, harvest_entry user_id (fetched_logs (envs i) user_id max_logs))
      <$> id_batch !! i.
Proof.
  revert envs i. induction id_batch as [|user_id rest IH]; intros envs i; [done|].
  simpl. unfold fetched_logs at 1.
  destruct (search_and_fetch_returns (envs 0) user_id max_logs)
    as (logs & Hfetch & _).
  destruct i as [|i]; simpl.
  - unfold fetched_logs. by rewrite Hfetch.
  - rewrite Hfetch. simpl. apply (IH (λ i, envs (S i))).
Qed.

(** The worker handles the ids of its batch one by one and independently:
    the entry at position [i] is the entry of the [i]-th id with the logs
    fetched while that id was processed, whatever happened to the other
    ids.  In particular an id whose fetch fails before the loop still
    gets an entry, with no logs, and that entry carries its id (so the id
    counts as done afterwards). *)
Theorem worker_items_independent (envs : nat -> fetch_env)
    (id_batch : list string) (max_logs : Z) :
  length (process_id_batch_worker envs id_batch max_logs) = length id_batch ∧
  (∀ i, process_id_batch_worker envs id_batch max_logs !! i
        = (λ user_id,
             harvest_entry user_id (fetched_logs (envs i) user_id max_logs))
            <$> id_batch !! i) ∧
  (∀ i user_id,
     id_batch !! i = Some user_id →
     env_setup (envs i) = SetupRaises →
     process_id_batch_worker envs id_batch max_logs !! i
     = Some (harvest_entry user_id []) ∧
     entry_user_id (harvest_entry user_id []) = Some user_id).
Proof.
  split_and!.
  - revert envs. induction id_batch as [|u rest IH]; intros envs; [done|].
    simpl. destruct (search_and_fetch_returns (envs 0) u max_logs)
      as (logs & -> & _). simpl. by rewrite IH.
  - apply process_id_batch_worker_lookup.
  - intros i user_id Hi Hsetup. split; [|done].
    rewrite process_id_batch_worker_lookup, Hi. simpl.
    unfold fetched_logs, search_and_fetch_logs_for_id. by rewrite Hsetup.
Qed.
End fetch_props.

Lemma fetched_logs_are_leading_records_witness :
  ∃ k,
    @search_and_fetch_logs_for_id sample_lib sample_env "7" 3
    = Some ("7",
            take 3 (concat (@page_records sample_lib sample_pages <$> seq 1 k))).
Proof.
  apply (@fetched_logs_are_leading_records sample_lib sample_env "7" 3).
  reflexivity.
Defined.

Lemma worker_items_independent_witness :
  @process_id_batch_worker sample_lib
     (λ i, if decide (i = 1) then sample_failing_env else sample_env)
     ["7"; "8"] 1 !! 1
  = Some (harvest_entry "8" []).
Proof.
  apply (@worker_items_independent sample_lib
           (λ i, if decide (i = 1) then sample_failing_env else sample_env)
           ["7"; "8"] 1); reflexivity.
Defined.






Section run_props.
Context `{PyLib}.

(** Saving the same results twice in a row leaves the file as the first
    save left it: the final save of a run changes nothing when the last
    save in the loop wrote the same list. *)
Theorem save_results_to_json_idempotent (all_results : json) (disk : file_state) :
  save_results_to_json all_results (save_results_to_json all_results disk)
  = save_results_to_json all_results disk.
Proof.
  destruct (save_results_to_json_cases all_results disk) as [[_ Hsame]|[_ Hnew]].
  - by rewrite !Hsame.
  - rewrite Hnew.
    by destruct (save_results_to_json_cases all_results
                   (Content (written_part (json_dumps all_results))))
      as [[_ ->]|[_ ->]].
Qed.

(** With a value in memory that is not a list, the loop over the finished
    batches never changes that value, and the file is one of: the file the
    loop started with, or the dump of that same value. *)
Lemma handle_completed_not_list v disk batch :
  is_list v = false →
  handle_completed (v, disk) batch
  = (v, match batch with
        | [] => save_results_to_json v disk
        | _ => disk
        end).
Proof. intros Hv. destruct batch; [done|]. by destruct v. Qed.

Lemma foldl_handle_completed_not_list v disk0 disk completed :
  is_list v = false →
  (disk = disk0 ∨ disk = Content (written_part (json_dumps v))) →
  ∃ disk',
    foldl handle_completed (v, disk) completed = (v, disk') ∧
    (disk' = disk0 ∨ disk' = Content (written_part (json_dumps v))).
Proof.
  intros Hv. revert disk.
  induction completed as [|batch completed IH]; intros disk Hdisk; [by eauto|].
  change (foldl handle_completed (v, disk) (batch :: completed))
    with (foldl handle_completed (handle_completed (v, disk) batch) completed).
  rewrite handle_completed_not_list by done. apply IH.
  destruct batch; [|done].
  destruct (save_results_to_json_cases v disk) as [[_ ->]|[_ ->]]; auto.
Qed.

(** When the output file holds JSON that is not a list but has a length
    (an object or a string), a run cannot add anything to it: every batch
    result is dropped, and the file at the end is the file as it was or
    what was written of that same value: all of its text when the write
    does not raise, the front part up to the point of failure when it
    does. *)
Theorem non_list_output_file_loses_results (disk : file_state) (v : json)
    (args : arguments) (ids : list string) (env : harvest_env) :
  json_load disk = Ok v →
  is_list v = false →
  has_len v = true →
  ∃ code disk',
    main args ids env disk = Exited code disk' ∧
    (disk' = disk ∨ disk' = Content (written_part (json_dumps v))) ∧
    (write_stops_at (json_dumps v) = None →
     disk' = disk ∨ disk' = Content (json_dumps v)).
Proof.
  intros Hload Hv Hlen.
  assert (∀ disk', disk' = disk ∨ disk' = Content (written_part (json_dumps v)) →
            (disk' = disk ∨ disk' = Content (written_part (json_dumps v))) ∧
            (write_stops_at (json_dumps v) = None →
             disk' = disk ∨ disk' = Content (json_dumps v))) as Hboth.
  { intros disk' Hdisk'. split; [done|]. intros Hw.
    by rewrite (written_part_complete _ Hw) in Hdisk'. }
  unfold main.
  destruct (startup_check args ids disk) as [code|queue]; [by eauto 6|].
  case_decide; [by eauto 6|].
  unfold initial_results. rewrite Hload, Hlen. unfold collect.
  set (completed := completed_batches _ _ _ _).
  destruct (foldl_handle_completed_not_list v disk disk completed Hv
              (or_introl eq_refl)) as (disk1 & Hfold & Hdisk1).
  rewrite Hfold. eexists 0%Z, _. split; [done|]. simpl. apply Hboth.
  destruct (save_results_to_json_cases v disk1) as [[_ ->]|[_ ->]]; auto.
Qed.

(** A run that ends with status 1 or with an exception nobody catches
    has not touched the output file.  The exception comes only after the
    sessions have been opened, from the load of the existing results:
    from an output file that exists but cannot be read, or from one that
    holds a value without a length (a number, a boolean, null); and with
    accepted credentials, an id to process and a session, each of these
    files raises it. *)
Theorem failed_run_leaves_file (args : arguments) (ids : list string)
    (env : harvest_env) (disk : file_state) :
  (∀ disk', main args ids env disk = Exited 1 disk' → disk' = disk) ∧
  (∀ disk', main args ids env disk = Uncaught disk' →
     disk' = disk ∧
     num_active_drivers env (arg_max_workers args) ≠ 0 ∧
     (disk = Unreadable ∨ ∃ v, json_load disk = Ok v ∧ has_len v = false)) ∧
  (credentials_rejected (arg_username args) (arg_password args) = false →
   ids ≠ [] →
   num_active_drivers env (arg_max_workers args) ≠ 0 →
   disk = Unreadable ∨ (∃ v, json_load disk = Ok v ∧ has_len v = false) →
   main args ids env disk = Uncaught disk).
Proof.
  split_and!.
  - intros disk'. unfold main.
    destruct (startup_check args ids disk); [congruence|].
    case_decide; [congruence|]. by destruct (initial_results disk).
  - intros disk'. unfold main.
    destruct (startup_check args ids disk); [done|].
    case_decide; [done|]. unfold initial_results.
    destruct (json_load disk) as [v|[]] eqn:Hload; try done.
    + destruct (has_len v) eqn:Hlen; [done|]. intros [= <-].
      split_and!; [done..|]. right. by exists v.
    + intros [= <-]. split_and!; [done..|]. left.
      destruct disk as [| |text]; try done.
      simpl in Hload. by destruct (json_loads text).
  - intros Hcred Hids Hn Hdisk. unfold main, startup_check. rewrite Hcred.
    destruct ids as [|uid ids]; [done|].
    assert (load_processed_user_ids disk = ∅) as ->.
    { unfold load_processed_user_ids, load_processed_user_ids_try.
      destruct Hdisk as [->|(v & -> & Hlen)]; [done|]. by destruct v. }
    rewrite ids_to_process_queue_empty. rewrite decide_False by done.
    unfold initial_results.
    destruct Hdisk as [->|(v & -> & ->)]; done.
Qed.

(** When every id of the input already has an entry, the run ends at
    once with status 0 and leaves the file alone, whatever the sessions
    would do. *)
Theorem rerun_with_all_done_is_noop (args : arguments) (ids : list string)
    (env : harvest_env) (disk : file_state) :
  credentials_rejected (arg_username args) (arg_password args) = false →
  (∀ uid, uid ∈ ids → uid ∈ load_processed_user_ids disk) →
  main args ids env disk = Exited 0 disk.
Proof.
  intros Hcred Hdone. unfold main, startup_check. rewrite Hcred.
  destruct ids as [|uid ids]; [done|].
  assert (ids_to_process_queue (uid :: ids) (load_processed_user_ids disk) = [])
    as ->; [|done].
  apply elem_of_nil_inv. intros x [Hx Hin]%list_elem_of_filter. auto.
Qed.







(** ** Special shapes of the partition *)

(** With a single session the whole queue is one batch; with at least as
    many sessions as pending ids every id is a batch of its own (and the
    remaining sessions get nothing); in general the number of batches is
    the queue length divided by the batch width, rounded up, which can be
    less than the number of sessions. *)
Theorem id_batches_shapes (n : nat) (queue : list string) :
  queue ≠ [] →
  id_batches 1 queue = [queue] ∧
  (length queue ≤ n → id_batches n queue = (λ uid, [uid]) <$> queue) ∧
  (1 ≤ n →
   length (id_batches n queue)
   = ceil_div (length queue) (ids_per_driver n queue)).
Proof.
  intros Hne.
  assert (0 < length queue) as Hlen by (destruct queue; [done|simpl; lia]).
  assert (∀ m, 1 ≤ m →
            ∃ j, j ≤ m ∧ 0 < ids_per_driver m queue ∧
              id_batches m queue
              = (λ i, take (ids_per_driver m queue)
                        (drop (i * ids_per_driver m queue) queue)) <$> seq 0 j ∧
              (j - 1) * ids_per_driver m queue < length queue ∧
              length queue ≤ j * ids_per_driver m queue) as Hshape.
  { intros m Hm.
    destruct (id_batches_slices m queue) as (j & Hj & Hb & Hfull & Hstop).
    pose proof (ceil_div_upper (length queue) m Hm) as Hupper.
    fold (ids_per_driver m queue) in Hupper.
    assert (0 < ids_per_driver m queue) as Hper by nia.
    exists j. split_and!; [done|done|done| |].
    - destruct j as [|j]; [simpl; lia|].
      destruct (Hfull j) as [_ ?]; [lia|]. simpl. lia.
    - destruct Hstop as [->|[?|?]]; [lia|lia|done]. }
  split_and!.
  - destruct (Hshape 1) as (j & Hj & Hper & -> & Hlow & Hup); [lia|].
    assert (ids_per_driver 1 queue = length queue) as Hw.
    { unfold ids_per_driver, ceil_div.
      rewrite Nat.div_1_r, Nat.mod_1_r. by rewrite decide_True, Nat.add_0_r. }
    rewrite Hw in *. assert (j = 1) as -> by nia.
    simpl. by rewrite take_ge.
  - intros Hn.
    destruct (Hshape n) as (j & Hj & Hper & -> & Hlow & Hup); [lia|].
    assert (ids_per_driver n queue = 1) as Hw.
    { pose proof (ceil_div_lower (length queue) n ltac:(lia) Hlen) as Hl.
      fold (ids_per_driver n queue) in Hl. nia. }
    rewrite Hw in *. assert (j = length queue) as -> by lia.
    apply list_eq. intros i. rewrite !list_lookup_fmap.
    destruct (queue !! i) as [uid|] eqn:Hi; simpl.
    + rewrite lookup_seq_lt by (by eapply lookup_lt_Some). simpl.
      rewrite Nat.mul_1_r. by rewrite (drop_S _ uid) by done.
    + rewrite lookup_seq_ge; [done|]. by apply lookup_ge_None.
  - intros Hn.
    destruct (Hshape n Hn) as (j & Hj & Hper & -> & Hlow & Hup).
    rewrite length_fmap, length_seq. unfold ceil_div.
    set (per := ids_per_driver n queue) in *.
    pose proof (Nat.div_mod_eq (length queue) per).
    pose proof (Nat.mod_upper_bound (length queue) per ltac:(lia)).
    case_decide; nia.
Qed.
End run_props.





Lemma non_list_output_file_loses_results_witness :
  ∃ code disk',
    @main sample_lib (sample_args "admin" "secret") ["7"] sample_harvest_env
       (Content (json_dumps (JDict [("error", JStr "denied")])))
    = Exited code disk' ∧
    disk' = Content (json_dumps (JDict [("error", JStr "denied")])).
Proof.
  destruct (@non_list_output_file_loses_results sample_lib
              (Content (json_dumps (JDict [("error", JStr "denied")])))
              (JDict [("error", JStr "denied")])
              (sample_args "admin" "secret") ["7"] sample_harvest_env
              ltac:(vm_compute; reflexivity) eq_refl eq_refl)
    as (code & disk' & Hmain & _ & Hfull).
  exists code, disk'. split; [exact Hmain|].
  by destruct (Hfull eq_refl).
Defined.

Lemma failed_run_leaves_file_witness :
  @main sample_lib (sample_args "admin" "secret") ["7"] sample_harvest_env
     (Content (json_dumps (JInt 5)))
  = Uncaught (Content (json_dumps (JInt 5))).
Proof.
  apply (@failed_run_leaves_file sample_lib).
  - vm_compute. reflexivity.
  - discriminate.
  - vm_compute. discriminate.
  - right. exists (JInt 5). split; [vm_compute|]; reflexivity.
Defined.

Lemma rerun_with_all_done_is_noop_witness :
  @main sample_lib (sample_args "admin" "secret") ["7"; "7"] sample_harvest_env
     sample_disk
  = Exited 0 sample_disk.
Proof.
  apply (@rerun_with_all_done_is_noop sample_lib).
  - vm_compute. reflexivity.
  - intros uid Hin.
    assert (uid = "7") as ->.
    { apply elem_of_cons in Hin as [?|Hin]; [done|].
      by apply list_elem_of_singleton in Hin. }
    by_decision.
Defined.



Lemma id_batches_shapes_witness :
  id_batches 1 ["7"; "8"; "9"] = [["7"; "8"; "9"]] ∧
  id_batches 5 ["7"; "8"; "9"] = [["7"]; ["8"]; ["9"]].
Proof.
  destruct (id_batches_shapes 5 ["7"; "8"; "9"] ltac:(discriminate))
    as (Hone & Hmany & _).
  split; [exact Hone|]. apply Hmany. simpl. lia.
Defined.

(** * Further properties of the checker *)

Section loader_props.
Context `{PyLib}.

Lemma group_logs_harvest_entry user_id logs :
  group_logs (harvest_entry user_id logs) = Some logs.
Proof. reflexivity. Qed.

Lemma omap_group_logs_entries (groups : list (string * list json)) :
  omap group_logs ((λ g, harvest_entry g.1 g.2) <$> groups) = groups.*2.
Proof.
  induction groups as [|[uid logs] groups IH]; [done|].
  csimpl. by rewrite IH.
Qed.

(** The checker reads the harvester's output: a file that holds entries
    as the harvester writes them loads as the logs of all entries chained
    in entry order, entries without logs included. *)
Theorem load_data_of_harvest_entries (f : file_state)
    (groups : list (string * list json)) :
  json_load f = Ok (JList ((λ g, harvest_entry g.1 g.2) <$> groups)) →
  load_data_from_file f = Some (concat groups.*2).
Proof.
  intros Hload. unfold load_data_from_file. rewrite Hload.
  destruct groups as [|[uid logs] groups]; [done|].
  csimpl. by rewrite omap_group_logs_entries.
Qed.

(** On a file that holds a JSON object the checker takes the same records
    as the harvester takes from a response body with that text: the list
    under [data], or nothing. *)
Theorem load_data_agrees_with_decode_body (text : string) d :
  json_loads text = Some (JDict d) →
  load_data_from_file (Content text) = decode_body text.
Proof.
  intros Hparse. unfold load_data_from_file, decode_body, json_load.
  rewrite Hparse. unfold JSON_DATA_KEY. simpl.
  destruct (dict_contains "data" d); simpl; [|done].
  by destruct (dict_get "data" d) as [[]|].
Qed.
End loader_props.

Lemma load_data_of_harvest_entries_witness :
  @load_data_from_file sample_lib (Content (json_dumps sample_new_results))
  = Some [sample_record 8 "10.0.0.3"].
Proof.
  apply (@load_data_of_harvest_entries sample_lib
           (Content (json_dumps sample_new_results))
           [("7", []); ("8", [sample_record 8 "10.0.0.3"])]).
  vm_compute. reflexivity.
Defined.

Lemma load_data_agrees_with_decode_body_witness :
  @load_data_from_file sample_lib
     (Content (json_dumps (JDict [("data", JStr "none")])))
  = @decode_body sample_lib (json_dumps (JDict [("data", JStr "none")])).
Proof.
  apply (@load_data_agrees_with_decode_body sample_lib _
           [("data", JStr "none")]).
  vm_compute. reflexivity.
Defined.

Lemma str_le_empty (s : string) : (EmptyString ≤ s)%string.
Proof. unfold String.le, String.leb. by destruct s. Qed.

Lemma str_gt_false_iff (a b : string) : str_gt a b = false ↔ (a ≤ b)%string.
Proof.
  rewrite <-not_true_iff_false, str_gt_iff.
  destruct (decide ((a ≤ b)%string)); tauto.
Qed.

Section group_content.
Context {U I : Type} `{EqDecision U, EqDecision I}.
Implicit Types (m : @id_map U I) (data : list (log_record U I)).
Implicit Types (field : log_record U I → option I) (r : log_record U I).

Lemma matching_records_snoc field data r v u :
  matching_records field (data ++ [r]) v u
  = matching_records field data v u
    ++ (if decide (field r = Some v ∧ userId r = Some u ∧ is_Some (timestamp r))
        then [r] else []).
Proof.
  unfold matching_records. by rewrite filter_app.
Qed.

(** A record of another value or another user leaves the details alone. *)
Lemma dict_get_users_scan_field_other field m r v u :
  ¬ (field r = Some v ∧ userId r = Some u ∧ is_Some (timestamp r)) →
  dict_get u (users_of (scan_field field m r) v) = dict_get u (users_of m v).
Proof.
  intros Hno. unfold scan_field, record_field.
  destruct (userId r) as [u'|] eqn:Hu; [|done].
  destruct (timestamp r) as [ts|] eqn:Hts; [|done].
  destruct (field r) as [v'|] eqn:Hv; [|done].
  rewrite users_of_record_use. case_decide as Hvv; [|done]. subst v'.
  apply dict_get_set_ne. intros ->. apply Hno. by eauto.
Qed.

Lemma dict_get_users_scan_field_match field m r v u ts :
  field r = Some v → userId r = Some u → timestamp r = Some ts →
  dict_get u (users_of (scan_field field m r) v)
  = Some (bump ts (default fresh_details (dict_get u (users_of m v)))).
Proof.
  intros Hv Hu Hts. unfold scan_field, record_field. rewrite Hu, Hts, Hv.
  rewrite users_of_record_use, decide_True by done.
  apply dict_get_set_eq.
Qed.

Lemma bump_count ts d : count (bump ts d) = S (count d).
Proof. unfold bump. simpl. by destruct (str_gt ts (last_seen d)). Qed.

Lemma bump_last_seen ts d :
  (ts ≤ last_seen (bump ts d))%string ∧
  (last_seen d ≤ last_seen (bump ts d))%string ∧
  (last_seen (bump ts d) = ts ∨ last_seen (bump ts d) = last_seen d).
Proof.
  unfold bump. simpl. destruct (str_gt ts (last_seen d)) eqn:Hgt; simpl.
  - apply str_gt_iff in Hgt. split_and!; [done| |by left].
    by destruct (total String.le (last_seen d) ts).
  - apply str_gt_false_iff in Hgt. split_and!; [done|done|by right].
Qed.

Lemma scan_field_content field data v u :
  details_describe (matching_records field data v u)
    (dict_get u (users_of (foldl (scan_field field) [] data) v)).
Proof.
  induction data as [|r data IH] using rev_ind; [done|].
  rewrite foldl_app, matching_records_snoc. simpl.
  set (m := foldl (scan_field field) [] data) in *.
  set (rs := matching_records field data v u) in *.
  case_decide as Hr.
  2:{ rewrite dict_get_users_scan_field_other, app_nil_r by done. done. }
  destruct Hr as (Hv & Hu & [ts Hts]).
  rewrite (dict_get_users_scan_field_match _ _ _ _ _ ts) by done.
  destruct (bump_last_seen ts (default fresh_details (dict_get u (users_of m v))))
    as (Hts_le & Hold_le & Hlast).
  unfold details_describe in *.
  split_and!.
  - by destruct rs.
  - rewrite bump_count, length_app. simpl.
    destruct (dict_get u (users_of m v)) as [d|]; simpl.
    + destruct IH as (_ & -> & _). lia.
    + rewrite IH. simpl. lia.
  - intros r' ts' [Hin| ->%list_elem_of_singleton]%elem_of_app Hts'.
    + destruct (dict_get u (users_of m v)) as [d|]; simpl in *.
      * destruct IH as (_ & _ & Hle & _). etrans; [by eapply Hle|done].
      * rewrite IH in Hin. by apply elem_of_nil in Hin.
    + by simplify_eq.
  - destruct Hlast as [->| ->].
    + right. exists r. split; [|done]. apply elem_of_app. right.
      apply list_elem_of_here.
    + destruct (dict_get u (users_of m v)) as [d|]; simpl in *; [|by left].
      destruct IH as (_ & _ & _ & [?|(r' & ? & ?)]); [by left|right].
      exists r'. split; [|done]. apply elem_of_app. by left.
Qed.

(** The details described by the same records, up to their order, are
    the same. *)
Lemma details_describe_unique (rs rs' : list (log_record U I)) o o' :
  rs ≡ₚ rs' → details_describe rs o → details_describe rs' o' → o = o'.
Proof.
  intros Hperm Ho Ho'. destruct o as [d|], o' as [d'|]; simpl in *.
  - destruct Ho as (_ & Hc & Hle & Hat), Ho' as (_ & Hc' & Hle' & Hat').
    f_equal. destruct d as [c l], d' as [c' l']. simpl in *. f_equal.
    + by rewrite Hc, Hc', Hperm.
    + apply (anti_symm String.le).
      * destruct Hat as [->|(r & Hr & Hts)]; [apply str_le_empty|].
        eapply Hle'; [|done]. by rewrite <-Hperm.
      * destruct Hat' as [->|(r & Hr & Hts)]; [apply str_le_empty|].
        eapply Hle; [|done]. by rewrite Hperm.
  - destruct Ho as [Hne _]. subst rs'. by apply Permutation_nil_r in Hperm.
  - destruct Ho' as [Hne _]. subst rs. by apply Permutation_nil_l in Hperm.
  - done.
Qed.
End group_content.

Section analysis_results.
Context {U I : Type} `{EqDecision U, EqDecision I}.
Implicit Types (m : @id_map U I) (data : list (log_record U I)).
Implicit Types (k : id_kind) (users : list (U * details)).

Lemma kind_result_analyze_data k data :
  kind_result k (analyze_data data)
  = shared (foldl (scan_field (kind_field k)) [] data).
Proof. rewrite analyze_data_fields. by destruct k. Qed.

(** A group of the result is the full group of its value in the scanned
    map, and has more than one user. *)
Lemma elem_of_kind_result k data v users :
  (v, users) ∈ kind_result k (analyze_data data) →
  users = users_of (foldl (scan_field (kind_field k)) [] data) v ∧
  1 < length users.
Proof.
  rewrite kind_result_analyze_data. unfold shared.
  intros [Hlen Hin]%list_elem_of_filter. split; [|done].
  destruct (scan_field_fold (kind_field k) data []) as (Hkeys & _ & _).
  unfold users_of.
  by rewrite (elem_of_dict_get _ _ _ (Hkeys (NoDup_nil_2)) Hin).
Qed.

Lemma users_of_shared m v :
  NoDup (dict_keys m) →
  users_of (shared m) v
  = if decide (1 < length (users_of m v)) then users_of m v else [].
Proof.
  intros Hnd. unfold users_of at 1.
  destruct (dict_get v (shared m)) as [users|] eqn:Hget; simpl.
  - apply dict_get_Some_elem_of in Hget. unfold shared in Hget.
    apply list_elem_of_filter in Hget as [Hlen Hin]. simpl in Hlen.
    unfold users_of. rewrite (elem_of_dict_get _ _ _ Hnd Hin). simpl.
    by rewrite decide_True.
  - apply dict_get_None in Hget.
    rewrite elem_of_dict_keys_shared in Hget by done.
    by rewrite decide_False.
Qed.

(** For every group of the result and every user: the user is in the
    group exactly when some complete record has the group's value and
    that user; the stored count is the number of such records; the stored
    last-seen text is the greatest of their timestamps. *)
Theorem group_details_count_and_latest (k : id_kind)
    (data : list (log_record U I)) (v : I) (users : list (U * details)) (u : U) :
  (v, users) ∈ kind_result k (analyze_data data) →
  details_describe (matching_records (kind_field k) data v u)
                   (dict_get u users).
Proof.
  intros [-> _]%elem_of_kind_result. apply scan_field_content.
Qed.

(** Every group of the result has at least two users, each user once and
    with a count of at least one, and every identifier value of the
    result has a single group. *)
Theorem shared_groups_well_formed (k : id_kind) (data : list (log_record U I)) :
  NoDup (dict_keys (kind_result k (analyze_data data))) ∧
  (∀ v users,
     (v, users) ∈ kind_result k (analyze_data data) →
     NoDup (dict_keys users) ∧
     2 ≤ length users ∧
     (∀ u d, (u, d) ∈ users → 1 ≤ count d)).
Proof.
  destruct (scan_field_fold (kind_field k) data []) as (Hkeys & Husers & _).
  split.
  - rewrite kind_result_analyze_data. unfold shared, dict_keys.
    assert ((shared (foldl (scan_field (kind_field k)) [] data)).*1
            `sublist_of` (foldl (scan_field (kind_field k)) [] data).*1)
      as Hsub by apply fmap_sublist, sublist_filter.
    apply (sublist_NoDup _ _ (Hkeys NoDup_nil_2) Hsub).
  - intros v users Hin.
    pose proof (elem_of_kind_result _ _ _ _ Hin) as [Heq Hlen].
    assert (NoDup (dict_keys users)) as Hnd.
    { rewrite Heq. apply Husers, NoDup_nil_2. }
    split_and!; [done|lia|].
    intros u d Hd.
    pose proof (scan_field_content (kind_field k) data v u) as Hdesc.
    rewrite <-Heq, (elem_of_dict_get _ _ _ Hnd Hd) in Hdesc.
    destruct Hdesc as (Hne & -> & _).
    destruct (matching_records _ _ _ _); [done|simpl; lia].
Qed.

Lemma shared_by_Permutation (field : log_record U I → option I) data data' v :
  data ≡ₚ data' → shared_by field data v → shared_by field data' v.
Proof.
  intros Hperm (r1 & r2 & u1 & u2 & ? & ? & ?).
  exists r1, r2, u1, u2. by rewrite <-Hperm.
Qed.

(** The order of the records does not matter for what the analysis finds:
    the same values are shared, by the same users, with the same counts
    and last-seen texts.  (It matters only for the order in which values
    and users are listed.) *)
Theorem analysis_independent_of_record_order (k : id_kind)
    (data data' : list (log_record U I)) :
  data ≡ₚ data' →
  (∀ v, v ∈ dict_keys (kind_result k (analyze_data data))
        ↔ v ∈ dict_keys (kind_result k (analyze_data data'))) ∧
  (∀ v u, dict_get u (users_of (kind_result k (analyze_data data)) v)
          = dict_get u (users_of (kind_result k (analyze_data data')) v)).
Proof.
  intros Hperm. rewrite !kind_result_analyze_data.
  assert (∀ v, v ∈ dict_keys (shared (foldl (scan_field (kind_field k)) [] data))
             ↔ v ∈ dict_keys (shared (foldl (scan_field (kind_field k)) [] data')))
    as Hsame.
  { intros v. rewrite !shared_fold_iff.
    split; apply shared_by_Permutation; [done|by symmetry]. }
  split; [done|]. intros v u.
  destruct (scan_field_fold (kind_field k) data []) as (Hkeys & _ & _).
  destruct (scan_field_fold (kind_field k) data' []) as (Hkeys' & _ & _).
  specialize (Hsame v).
  rewrite !elem_of_dict_keys_shared in Hsame by auto using NoDup_nil_2.
  rewrite !users_of_shared by auto using NoDup_nil_2.
  destruct (decide (1 < length (users_of _ v))) as [Hlen|Hlen];
    [rewrite decide_True by tauto|rewrite decide_False by tauto; done].
  eapply details_describe_unique; [|apply scan_field_content..].
  unfold matching_records. by rewrite Hperm.
Qed.
End analysis_results.

Lemma group_details_count_and_latest_witness :
  details_describe
    (matching_records (kind_field KindHwid) sample_log_records "A" 2%Z)
    (Some {| count := 1; last_seen := "t2" |}).
Proof.
  exact (group_details_count_and_latest KindHwid sample_log_records "A"
           [(1%Z, {| count := 1; last_seen := "t1" |});
            (2%Z, {| count := 1; last_seen := "t2" |})] 2%Z
           (list_elem_of_here _ _)).
Defined.

Lemma analysis_independent_of_record_order_witness :
  dict_get 2%Z
    (users_of (kind_result KindHwid (analyze_data sample_log_records)) "A")
  = dict_get 2%Z
      (users_of (kind_result KindHwid
                   (analyze_data (reverse sample_log_records))) "A").
Proof.
  apply (analysis_independent_of_record_order KindHwid sample_log_records
           (reverse sample_log_records)).
  symmetry. apply reverse_Permutation.
Defined.

Section report.
Context {U I : Type} `{EqDecision U, EqDecision I}.
Implicit Types (x y : U * details) (l group : list (U * details)).
Implicit Types (k : id_kind).

(** [x] is listed before [y] only if it ranks at least as high. *)
Local Abbreviation ranked := (λ x y : U * details, ranks_at_least x.2 y.2).

Lemma key_lt_sort_key_false x y :
  key_lt (sort_key x) (sort_key y) = false ↔ ranks_at_least x.2 y.2.
Proof. apply key_lt_false_iff. Qed.

Lemma insert_desc_Permutation x l : insert_desc x l ≡ₚ x :: l.
Proof.
  induction l as [|y l IH]; simpl; [done|].
  destruct (key_lt (sort_key x) (sort_key y)); [|done].
  rewrite IH. apply Permutation_swap.
Qed.

Lemma sorted_desc_Permutation l : sorted_desc l ≡ₚ l.
Proof.
  induction l as [|x l IH]; simpl; [done|].
  by rewrite insert_desc_Permutation, IH.
Qed.

Lemma insert_desc_sorted x l :
  StronglySorted ranked l → StronglySorted ranked (insert_desc x l).
Proof.
  induction 1 as [|y l Hsorted IH Hy]; simpl.
  { repeat constructor. }
  destruct (key_lt (sort_key x) (sort_key y)) eqn:Hlt.
  - constructor; [done|].
    apply Forall_forall. intros z [->|Hz]%elem_of_insert_desc.
    + destruct (ranks_at_least_total y.2 x.2) as [?|Hxy]; [done|].
      apply key_lt_sort_key_false in Hxy. congruence.
    + rewrite Forall_forall in Hy. by apply Hy.
  - apply key_lt_sort_key_false in Hlt.
    constructor; [by constructor|].
    constructor; [done|].
    eapply Forall_impl; [exact Hy|]. intros z Hz. simpl in *.
    by eapply ranks_at_least_trans.
Qed.

Lemma sorted_desc_sorted l : StronglySorted ranked (sorted_desc l).
Proof.
  induction l as [|x l IH]; simpl; [constructor|by apply insert_desc_sorted].
Qed.

Lemma secondary_lines_users (p : U) l :
  p ∉ dict_keys l →
  omap line_user
    ((λ item, @LineSecondary U I item.1 item.2)
       <$> filter (λ item, item.1 ≠ p) l) = l.
Proof.
  unfold dict_keys. induction l as [|[u d] l IH]; [done|].
  rewrite fmap_cons, not_elem_of_cons. simpl. intros [Hne Hnotin].
  rewrite filter_cons_True by (simpl; congruence).
  csimpl. by rewrite IH.
Qed.

(** The users named by the lines of a group are the sorted users. *)
Lemma print_group_users k (v : I) group :
  NoDup (dict_keys group) →
  omap line_user (print_group k v group) = sorted_desc group.
Proof.
  intros Hnd. unfold print_group.
  assert (NoDup (dict_keys (sorted_desc group))) as Hsorted.
  { unfold dict_keys. by rewrite sorted_desc_Permutation. }
  destruct (sorted_desc group) as [|[p d] sorted]; [done|].
  unfold dict_keys in Hsorted. rewrite fmap_cons in Hsorted.
  apply NoDup_cons in Hsorted as [Hp _]. csimpl.
  rewrite filter_cons_False by (simpl; by intros Hn).
  f_equal. by apply secondary_lines_users.
Qed.

(** In the lines of a group every user of the group appears exactly
    once (the primary line is never repeated among the secondary ones,
    and no user is dropped). *)
Theorem report_lists_each_user_once (k : id_kind) (v : I)
    (group : list (U * details)) :
  NoDup (dict_keys group) →
  omap line_user (print_group k v group) ≡ₚ group ∧
  NoDup (omap line_user (print_group k v group)).*1.
Proof.
  intros Hnd. rewrite print_group_users by done. split.
  - apply sorted_desc_Permutation.
  - by rewrite sorted_desc_Permutation.
Qed.

(** The lines of a group go from the highest rank to the lowest: a line
    never comes before a line of a user with a strictly higher count, or
    with the same count and a later last-seen text. *)
Theorem report_lines_in_descending_rank (k : id_kind) (v : I)
    (group : list (U * details)) :
  NoDup (dict_keys group) →
  StronglySorted (λ x y : U * details, ranks_at_least x.2 y.2)
    (omap line_user (print_group k v group)).
Proof.
  intros Hnd. rewrite print_group_users by done. apply sorted_desc_sorted.
Qed.

(** The head of the sorted list is the first item of the group, in the
    group's own order, among those of the highest rank. *)
Lemma sorted_desc_head_first l :
  match sorted_desc l with
  | [] => True
  | x :: _ =>
      ∃ pre post,
        l = pre ++ x :: post ∧
        (∀ y, y ∈ pre → ¬ ranks_at_least y.2 x.2) ∧
        (∀ y, y ∈ post → ranks_at_least x.2 y.2)
  end.
Proof.
  induction l as [|a l IH]; simpl; [done|].
  pose proof (sorted_desc_head l) as Hhead.
  destruct (sorted_desc l) as [|x rest]; simpl.
  { subst l. exists [], []. split_and!; [done|..]; by intros y ?%elem_of_nil. }
  destruct IH as (pre & post & -> & Hpre & Hpost).
  destruct Hhead as [_ Hmax].
  destruct (key_lt (sort_key a) (sort_key x)) eqn:Hlt.
  - exists (a :: pre), post. split_and!; [done| |done].
    intros y [->|Hy]%elem_of_cons; [|by apply Hpre].
    intros Hax. apply key_lt_sort_key_false in Hax. congruence.
  - apply key_lt_sort_key_false in Hlt.
    exists [], (pre ++ x :: post). split_and!; [done|by intros y ?%elem_of_nil|].
    intros y Hy. eapply ranks_at_least_trans; [done|by apply Hmax].
Qed.

(** Ties are broken by the order of the group: the user of the primary
    line is the first user of the group, in the order in which the users
    entered it, that no other user outranks. Users before it rank strictly
    lower, users after it rank at most as high. *)
Theorem primary_is_first_of_highest_rank (k : id_kind) (v : I)
    (group : list (U * details)) (primary : U) (d : details)
    (rest : list (report_line U I)) :
  print_group k v group = LineValue k v :: LinePrimary primary d :: rest →
  ∃ pre post,
    group = pre ++ (primary, d) :: post ∧
    (∀ u d', (u, d') ∈ pre → ¬ ranks_at_least d' d) ∧
    (∀ u d', (u, d') ∈ post → ranks_at_least d d').
Proof.
  unfold print_group. intros Hprint.
  pose proof (sorted_desc_head_first group) as Hfirst.
  destruct (sorted_desc group) as [|[p d0] sorted]; [done|].
  injection Hprint as -> -> _.
  destruct Hfirst as (pre & post & -> & Hpre & Hpost).
  exists pre, post. split_and!; [done|..].
  - intros u d' Hin. apply (Hpre (u, d') Hin).
  - intros u d' Hin. apply (Hpost (u, d') Hin).
Qed.
End report.

Lemma report_lists_each_user_once_witness :
  omap line_user (print_group KindHwid "hw" example_group) ≡ₚ example_group.
Proof.
  apply (report_lists_each_user_once KindHwid "hw" example_group).
  by_decision.
Defined.

Lemma report_lines_in_descending_rank_witness :
  StronglySorted (λ x y : Z * details, ranks_at_least x.2 y.2)
    (omap line_user (print_group KindHwid "hw" example_group)).
Proof.
  apply (report_lines_in_descending_rank KindHwid "hw" example_group).
  by_decision.
Defined.

Lemma primary_is_first_of_highest_rank_witness :
  ∃ pre post,
    example_group
    = pre ++ (2%Z, {| count := 3; last_seen := "2024-01-03" |}) :: post ∧
    (∀ u d', (u, d') ∈ pre →
       ¬ ranks_at_least d' {| count := 3; last_seen := "2024-01-03" |}) ∧
    (∀ u d', (u, d') ∈ post →
       ranks_at_least {| count := 3; last_seen := "2024-01-03" |} d').
Proof.
  apply (primary_is_first_of_highest_rank KindHwid "hw" example_group 2%Z
           {| count := 3; last_seen := "2024-01-03" |}
           [LineSecondary 1%Z {| count := 3; last_seen := "2024-01-02" |}]).
  reflexivity.
Defined.

Section report_sections.
Context {U I : Type} `{EqDecision U, EqDecision I}.
Implicit Types (k : id_kind) (m : @id_map U I).

Lemma elem_of_print_group_value k k' (v v' : I) (group : list (U * details)) :
  LineValue k' v' ∈ print_group k v group ↔ k' = k ∧ v' = v.
Proof.
  unfold print_group. rewrite elem_of_cons. split.
  - intros [[= -> ->]|Hin]; [done|]. exfalso.
    destruct (sorted_desc group) as [|[p d] sorted].
    + by apply list_elem_of_singleton in Hin.
    + apply elem_of_cons in Hin as [?|Hin]; [done|].
      by apply list_elem_of_fmap in Hin as (? & ? & _).
  - intros [-> ->]. by left.
Qed.

Lemma elem_of_print_kind_value k k' (v' : I) m :
  LineValue k' v' ∈ print_kind k m ↔ k' = k ∧ v' ∈ dict_keys m.
Proof.
  unfold print_kind, dict_keys. destruct m as [|kv m'] eqn:Hm.
  { rewrite list_elem_of_singleton, fmap_nil, elem_of_nil. split; [done|tauto]. }
  rewrite <-Hm. clear Hm. rewrite elem_of_cons, list_elem_of_bind.
  rewrite list_elem_of_fmap. split.
  - intros [?|([v g] & [-> ->]%elem_of_print_group_value & Hin)]; [done|].
    split; [done|]. by exists (v, g).
  - intros [-> ([v g] & -> & Hin)]. right. exists (v, g).
    split; [|done]. by apply elem_of_print_group_value.
Qed.

Lemma elem_of_print_kind_none k k' m :
  @LineNoneShared U I k' ∈ print_kind k m ↔ k' = k ∧ m = [].
Proof.
  unfold print_kind. destruct m as [|kv m'] eqn:Hm.
  { rewrite list_elem_of_singleton. split; [by intros [= ->]|by intros [-> _]]. }
  rewrite <-Hm. rewrite elem_of_cons, list_elem_of_bind. split; [|by intros [_ ->]].
  intros [?|([v g] & Hin & _)]; [done|]. exfalso. unfold print_group in Hin.
  apply elem_of_cons in Hin as [?|Hin]; [done|]. simpl in Hin.
  destruct (sorted_desc g) as [|[p d] sorted].
  - by apply list_elem_of_singleton in Hin.
  - apply elem_of_cons in Hin as [?|Hin]; [done|].
    by apply list_elem_of_fmap in Hin as (? & ? & _).
Qed.

(** From the records to the report: the report has a block for an
    identifier value under a kind exactly when two different users have
    that value in the field of that kind, on records with a user id and a
    timestamp; and it has the "none shared" line of a kind exactly when no
    value of that kind is shared. *)
Theorem report_blocks_are_the_shared_values (k : id_kind)
    (data : list (log_record U I)) :
  let res := analyze_data data in
  (∀ v, LineValue k v ∈ print_results res.1.1 res.1.2 res.2
        ↔ shared_by (kind_field k) data v) ∧
  (LineNoneShared k ∈ print_results res.1.1 res.1.2 res.2
   ↔ ∀ v, ¬ shared_by (kind_field k) data v).
Proof.
  intros res. unfold print_results.
  assert (∀ v, v ∈ dict_keys (kind_result k res)
               ↔ shared_by (kind_field k) data v) as Hshared.
  { intros v. unfold res. rewrite kind_result_analyze_data.
    apply shared_fold_iff. }
  split.
  - intros v. rewrite <-Hshared.
    rewrite elem_of_cons, !elem_of_app, !elem_of_print_kind_value,
      list_elem_of_singleton.
    clear; destruct k; simpl; intuition congruence.
  - assert (kind_result k res = [] ↔ ∀ v, ¬ shared_by (kind_field k) data v)
      as Hnil.
    { split.
      - intros Hnil v Hv. apply Hshared in Hv. rewrite Hnil in Hv.
        by apply elem_of_nil in Hv.
      - intros Hnone. destruct (kind_result k res) as [|[v g] m'] eqn:Hres;
          [done|].
        destruct (Hnone v). apply Hshared. rewrite ?Hres.
        apply list_elem_of_here. }
    rewrite <-Hnil.
    rewrite elem_of_cons, !elem_of_app, !elem_of_print_kind_none,
      list_elem_of_singleton.
    clear; destruct k; simpl; intuition congruence.
Qed.
End report_sections.

(** * Further properties: the id files *)

Lemma py_isdigit_not_space c : py_isdigit c = true → py_isspace c = false.
Proof.
  unfold py_isdigit, py_isspace. intros Hd%bool_decide_eq_true.
  apply orb_false_iff. split; apply bool_decide_eq_false; lia.
Qed.

Lemma list_ascii_of_string_app (a b : string) :
  String.list_ascii_of_string (a +:+ b)
  = String.list_ascii_of_string a ++ String.list_ascii_of_string b.
Proof.
  induction a as [|c a IH]; [done|].
  change (c :: String.list_ascii_of_string (a +:+ b)
          = c :: String.list_ascii_of_string a ++ String.list_ascii_of_string b).
  by rewrite IH.
Qed.

Lemma list_ascii_of_string_inj (a b : string) :
  String.list_ascii_of_string a = String.list_ascii_of_string b → a = b.
Proof.
  intros Heq.
  by rewrite <-(String.string_of_list_ascii_of_string a), Heq,
    String.string_of_list_ascii_of_string.
Qed.

(** Reading a token: characters that are not white space extend the
    current token. *)
Lemma split_go_token tok cur rest :
  Forall (λ c, py_isspace c = false) tok →
  split_go cur (tok ++ rest) = split_go (cur ++ tok) rest.
Proof.
  intros Htok. revert cur.
  induction Htok as [|c tok Hc _ IH]; intros cur; simpl.
  - by rewrite app_nil_r.
  - rewrite Hc, IH. by rewrite <-app_assoc.
Qed.

(** The tokens are not empty and contain no white space. *)
Lemma split_go_tokens cur cs :
  Forall (λ c, py_isspace c = false) cur →
  Forall (λ tok, tok ≠ [] ∧ Forall (λ c, py_isspace c = false) tok)
         (split_go cur cs).
Proof.
  revert cur. induction cs as [|c cs IH]; intros cur Hcur; simpl.
  - destruct cur; [constructor|]. constructor; [done|constructor].
  - destruct (py_isspace c) eqn:Hc.
    + destruct cur; [by apply IH|].
      constructor; [done|]. by apply IH.
    + apply IH, Forall_app. by repeat constructor.
Qed.

Lemma lstrip_chars_id cs :
  Forall (λ c, py_isspace c = false) cs → lstrip_chars cs = cs.
Proof. intros Hcs. destruct Hcs as [|c cs' Hc _]; [done|]. simpl. by rewrite Hc. Qed.

Lemma py_strip_id (s : string) :
  Forall (λ c, py_isspace c = false) (String.list_ascii_of_string s) →
  py_strip s = s.
Proof.
  intros Hs. unfold py_strip.
  rewrite (lstrip_chars_id (String.list_ascii_of_string s)) by done.
  rewrite lstrip_chars_id by (by apply Forall_rev).
  by rewrite rev_involutive, String.string_of_list_ascii_of_string.
Qed.

Lemma forallb_true_Forall {A} (f : A → bool) (l : list A) :
  forallb f l = true ↔ Forall (λ x, f x = true) l.
Proof.
  induction l as [|x l IH]; simpl.
  - split; [constructor|done].
  - rewrite andb_true_iff, Forall_cons, IH. done.
Qed.

Lemma py_isdigit_str_true (s : string) :
  py_isdigit_str s = true ↔
  s ≠ EmptyString ∧
  Forall (λ c, py_isdigit c = true) (String.list_ascii_of_string s).
Proof.
  unfold py_isdigit_str. destruct s as [|c s]; simpl.
  - split; [done|by intros [? _]].
  - rewrite andb_true_iff, Forall_cons, forallb_true_Forall.
    split; [by intros [? ?]|by intros [_ [? ?]]].
Qed.

Lemma digit_str_no_space (s : string) :
  py_isdigit_str s = true →
  Forall (λ c, py_isspace c = false) (String.list_ascii_of_string s).
Proof.
  intros [_ Hd]%py_isdigit_str_true.
  eapply Forall_impl; [exact Hd|]. apply py_isdigit_not_space.
Qed.

(** Splitting what [" ".join] wrote gives the joined tokens back, when
    these are not empty and free of white space. *)
Lemma split_go_join (ids : list string) :
  Forall (λ uid, py_isdigit_str uid = true) ids →
  split_go [] (String.list_ascii_of_string (join " " ids))
  = String.list_ascii_of_string <$> ids.
Proof.
  induction 1 as [|uid ids Huid _ IH]; [done|].
  pose proof (digit_str_no_space uid Huid) as Hns.
  apply py_isdigit_str_true in Huid as [Hne _].
  assert (String.list_ascii_of_string uid ≠ []) as Hne'.
  { intros Hnil. apply Hne. by apply list_ascii_of_string_inj. }
  destruct ids as [|uid' ids].
  - simpl. rewrite <-(app_nil_r (String.list_ascii_of_string uid)) at 1.
    rewrite split_go_token by done. simpl.
    by destruct (String.list_ascii_of_string uid).
  - change (join " " (uid :: uid' :: ids))
      with (uid +:+ " " +:+ join " " (uid' :: ids)).
    rewrite !list_ascii_of_string_app, split_go_token by done.
    rewrite fmap_cons, <-IH. simpl.
    by destruct (String.list_ascii_of_string uid).
Qed.

(** White space before the first token and after the last one is
    skipped. *)
Lemma split_go_leading ws cs :
  Forall (λ c, py_isspace c = true) ws → split_go [] (ws ++ cs) = split_go [] cs.
Proof. induction 1 as [|c ws Hc _ IH]; simpl; [done|]. by rewrite Hc. Qed.

Lemma split_go_spaces ws :
  Forall (λ c, py_isspace c = true) ws → split_go [] ws = [].
Proof. induction 1 as [|c ws Hc _ IH]; simpl; [done|]. by rewrite Hc. Qed.

Lemma split_go_trailing cur cs ws :
  Forall (λ c, py_isspace c = true) ws →
  split_go cur (cs ++ ws) = split_go cur cs.
Proof.
  intros Hws. revert cur. induction cs as [|c cs IH]; intros cur.
  - rewrite app_nil_l. destruct Hws as [|w ws Hw Hws]; [done|].
    simpl. rewrite Hw, (split_go_spaces ws) by done. by destruct cur.
  - simpl. destruct (py_isspace c); [|by rewrite IH].
    destruct cur; by rewrite IH.
Qed.

Lemma split_go_padding before cs after :
  Forall (λ c, py_isspace c = true) before →
  Forall (λ c, py_isspace c = true) after →
  split_go [] (before ++ cs ++ after) = split_go [] cs.
Proof.
  intros Hb Ha. by rewrite split_go_leading, split_go_trailing.
Qed.

Lemma py_split_join (ids : list string) :
  Forall (λ uid, py_isdigit_str uid = true) ids →
  py_split (join " " ids) = ids.
Proof.
  intros Hids. unfold py_split. rewrite split_go_join by done.
  rewrite <-list_fmap_compose. rewrite <-(list_fmap_id ids) at 2.
  apply list_fmap_ext. intros _ uid _. simpl.
  apply String.string_of_list_ascii_of_string.
Qed.

Lemma py_split_tokens_no_space (content : string) :
  Forall (λ item,
            Forall (λ c, py_isspace c = false) (String.list_ascii_of_string item))
         (py_split content).
Proof.
  unfold py_split. apply Forall_fmap.
  eapply Forall_impl; [apply (split_go_tokens []); constructor|].
  intros tok [_ Htok]. simpl.
  by rewrite String.list_ascii_of_string_of_list_ascii.
Qed.

(** The call of [strip] on each token changes nothing. *)
Lemma read_ids_from_file_filter (content : string) :
  read_ids_from_file (Content content)
  = filter (λ item, py_isdigit_str item = true) (py_split content).
Proof.
  unfold read_ids_from_file.
  pose proof (py_split_tokens_no_space content) as Htok.
  induction Htok as [|item items Hitem _ IH]; [done|].
  rewrite !filter_cons, (py_strip_id item) by done.
  case_decide; [|done]. rewrite fmap_cons, IH. by rewrite py_strip_id.
Qed.

(** On an ASCII id file, the ids read are the white-space separated
    tokens that consist of decimal digits, in file order: every id is a
    non-empty string of the digits 0 to 9, and no such token is left
    out. *)
Theorem read_ids_are_the_digit_tokens (content : string) :
  is_ascii_text content →
  read_ids_from_file (Content content)
  = filter (λ item, py_isdigit_str item = true) (py_split content) ∧
  (∀ uid, uid ∈ read_ids_from_file (Content content) →
     uid ≠ EmptyString ∧
     Forall (λ c, 48 ≤ Ascii.nat_of_ascii c ≤ 57)
            (String.list_ascii_of_string uid)).
Proof.
  intros _. split; [apply read_ids_from_file_filter|].
  intros uid. rewrite read_ids_from_file_filter.
  intros [[Hne Hd]%py_isdigit_str_true _]%list_elem_of_filter.
  split; [done|]. eapply Forall_impl; [exact Hd|].
  intros c Hc. unfold py_isdigit in Hc. by apply bool_decide_eq_true in Hc.
Qed.

Lemma read_ids_are_the_digit_tokens_witness :
  read_ids_from_file (Content sample_id_text) = ["12"; "7"; "003"].
Proof.
  rewrite (proj1 (read_ids_are_the_digit_tokens sample_id_text
                    ltac:(by_decision))).
  vm_compute. reflexivity.
Defined.

Lemma filter_digit_strs (ids : list string) :
  Forall (λ uid, py_isdigit_str uid = true) ids →
  filter (λ item, py_isdigit_str item = true) ids = ids.
Proof.
  induction 1 as [|uid ids Huid _ IH]; [done|].
  by rewrite filter_cons_True, IH.
Qed.

Lemma read_ids_of_joined_ids_aux (ids : list string) :
  Forall (λ uid, py_isdigit_str uid = true) ids →
  read_ids_from_file (Content (join " " ids)) = ids.
Proof.
  intros Hids. rewrite read_ids_from_file_filter, py_split_join by done.
  by apply filter_digit_strs.
Qed.

(** Ids written with single spaces between them are read back as they
    were written, when each is a non-empty string of digits; and then
    reading is also unaffected by more white space around them. *)
Theorem read_ids_of_joined_ids (ids : list string) (before after : string) :
  Forall (λ uid, py_isdigit_str uid = true) ids →
  Forall (λ c, py_isspace c = true) (String.list_ascii_of_string before) →
  Forall (λ c, py_isspace c = true) (String.list_ascii_of_string after) →
  read_ids_from_file (Content (join " " ids)) = ids ∧
  read_ids_from_file (Content (before +:+ join " " ids +:+ after)) = ids.
Proof.
  intros Hids Hbefore Hafter. split; [by apply read_ids_of_joined_ids_aux|].
  rewrite read_ids_from_file_filter.
  rewrite <-(filter_digit_strs ids) at 2 by done. f_equal.
  rewrite <-(py_split_join ids) at 2 by done.
  unfold py_split. f_equal. rewrite !list_ascii_of_string_app.
  apply split_go_padding; done.
Qed.

Lemma read_ids_of_joined_ids_witness :
  read_ids_from_file (Content (newline +:+ join " " ["12"; "7"] +:+ " "))
  = ["12"; "7"].
Proof.
  apply (read_ids_of_joined_ids ["12"; "7"] newline " "); by_decision.
Defined.

(** An id file that is missing, cannot be read, or is ASCII text with no
    numeric token is not an error: with accepted credentials the program
    ends with status 0, opens no session and leaves the output file
    alone. *)
Theorem run_without_ids_exits_0 `{PyLib} (args : arguments)
    (id_file : file_state) (env : harvest_env) (disk : file_state) :
  credentials_rejected (arg_username args) (arg_password args) = false →
  ascii_file id_file →
  read_ids_from_file id_file = [] →
  run_harvest args id_file env disk = Exited 0 disk ∧
  read_ids_from_file Absent = [] ∧
  read_ids_from_file Unreadable = [].
Proof.
  intros Hcred _ Hids. split; [|done].
  unfold run_harvest, main, startup_check. by rewrite Hcred, Hids.
Qed.

Lemma run_without_ids_exits_0_witness :
  @run_harvest sample_lib (sample_args "admin" "secret") (Content "abc x9")
     sample_harvest_env sample_disk
  = Exited 0 sample_disk.
Proof.
  apply (@run_without_ids_exits_0 sample_lib).
  - vm_compute. reflexivity.
  - by_decision.
  - vm_compute. reflexivity.
Defined.

Lemma str_ltb_true_le (a b : string) : String.ltb a b = true → (a ≤ b)%string.
Proof.
  unfold String.ltb, String.le, String.leb.
  by destruct (String.compare a b).
Qed.

Lemma str_ltb_false_le (a b : string) : String.ltb a b = false → (b ≤ a)%string.
Proof.
  unfold String.ltb, String.le, String.leb.
  rewrite (String.compare_antisym a b).
  by destruct (String.compare b a).
Qed.

Lemma insert_asc_Permutation x l : insert_asc x l ≡ₚ x :: l.
Proof.
  induction l as [|y l IH]; simpl; [done|].
  destruct (String.ltb y x); [|done]. rewrite IH. apply Permutation_swap.
Qed.

Lemma sort_strings_Permutation l : sort_strings l ≡ₚ l.
Proof.
  induction l as [|x l IH]; simpl; [done|].
  by rewrite insert_asc_Permutation, IH.
Qed.

Lemma insert_asc_sorted x l :
  StronglySorted String.le l → StronglySorted String.le (insert_asc x l).
Proof.
  induction 1 as [|y l Hsorted IH Hy]; simpl.
  { repeat constructor. }
  destruct (String.ltb y x) eqn:Hlt.
  - constructor; [done|].
    rewrite insert_asc_Permutation. constructor; [|done].
    by apply str_ltb_true_le.
  - apply str_ltb_false_le in Hlt.
    constructor; [by constructor|]. constructor; [done|].
    eapply Forall_impl; [exact Hy|]. intros z Hz. by etrans.
Qed.

Lemma sort_strings_sorted l : StronglySorted String.le (sort_strings l).
Proof.
  induction l as [|x l IH]; simpl; [constructor|by apply insert_asc_sorted].
Qed.

(** uniqueIds.py feeds the harvester: when every line of the input,
    stripped, is a non-empty string of digits, the file that
    [format_numbers_from_file] writes is read by [read_ids_from_file] as
    exactly those numbers, each as often as it occurs in the input, in
    ascending order of strings (not of numbers). *)
Theorem formatted_ids_are_read_back_sorted (text : string) (name : string) :
  name ≠ EmptyString →
  Forall (λ line, py_isdigit_str (py_strip line) = true) (py_readlines text) →
  ∃ output,
    format_numbers_from_file (Content text) (Some name) = FormatWritten output ∧
    read_ids_from_file output = sort_strings (py_strip <$> py_readlines text) ∧
    read_ids_from_file output ≡ₚ py_strip <$> py_readlines text ∧
    StronglySorted String.le (read_ids_from_file output).
Proof.
  intros Hname Hlines. exists (Content (formatted_string text)).
  assert (read_ids_from_file (Content (formatted_string text))
          = sort_strings (py_strip <$> py_readlines text)) as Hread.
  { unfold formatted_string. apply read_ids_of_joined_ids_aux.
    rewrite sort_strings_Permutation. by apply Forall_fmap. }
  split_and!.
  - by destruct name.
  - done.
  - rewrite Hread. apply sort_strings_Permutation.
  - rewrite Hread. apply sort_strings_sorted.
Qed.

Lemma formatted_ids_are_read_back_sorted_witness :
  ∃ output,
    format_numbers_from_file (Content sample_numbers_text) (Some "output.txt")
    = FormatWritten output ∧
    read_ids_from_file output = ["10"; "10"; "9"].
Proof.
  destruct (formatted_ids_are_read_back_sorted sample_numbers_text "output.txt"
              ltac:(discriminate) ltac:(by_decision))
    as (output & Hwritten & Hread & _).
  exists output. split; [exact Hwritten|]. rewrite Hread.
  vm_compute. reflexivity.
Defined.
